(** * Fiducial-marker tracker: a model of [src/native/main.cpp]

    The development follows the C++ translation unit function by function:
    [startsWith], [getDictFromName], [parseArgs], [printJSONL] and [main].
    What the program does to the outside world (standard output, standard
    error, the video stream, the calls into OpenCV) is recorded as a trace
    of events, so that statements such as "nothing was opened before the
    run stopped" are statements about lists. *)

From Stdlib Require Import ZArith QArith Lia Ascii String List Bool Sorted.
From stdpp Require Import base strings gmap list pretty.

Open Scope Z_scope.

(** ** Characters and numbers *)

(** The double-quote and line-feed characters of the C++ literals. *)
Definition dq : string := String "034"%char EmptyString.
Definition nl : string := String "010"%char EmptyString.

(** [float] values are represented by the rational number they denote.
    The model evaluates one piece of float arithmetic only, the
    conversion of an [int] divided by [2.0] (the principal point), which
    is exact for frame dimensions below 2^24.  The quotients of the
    marker size by [2.f] are binary32 operations that can round, so they
    are kept as written (see [Coordinate]) and given no value. *)
Definition float : Type := Q.

Definition INT_MAX : Z := 2147483647.
Definition UINT_MOD : Z := 4294967296.

(** Conversion of an [int] to [unsigned int] (the usual arithmetic
    conversions of [i < cfg.startFrame]) and back ([int i = cfg.startFrame]). *)
Definition to_uint (z : Z) : Z := z mod UINT_MOD.
Definition to_int (z : Z) : Z :=
  if to_uint z <=? INT_MAX then to_uint z else to_uint z - UINT_MOD.

(** ** Exceptions and results of library calls *)

Inductive Exception : Type :=
| invalid_argument
| out_of_range.

Inductive Result (A : Type) : Type :=
| Returns (a : A)
| Throws (e : Exception).
Arguments Returns {A} a.
Arguments Throws {A} e.

(** ** [startsWith] (main.cpp, lines 153-161) *)

(** [str[i] != match[i]] on two in-range indices. *)
Definition char_differs (str mtch : string) (i : nat) : bool :=
  match String.get i str, String.get i mtch with
  | Some a, Some b => negb (Ascii.eqb a b)
  | _, _ => true
  end.

(** The [for] loop: [i] is the loop counter, [todo] what is left of
    [end - i]. *)
Fixpoint startsWith_loop (str mtch : string) (i todo : nat) : bool :=
  match todo with
  | O => true
  | S todo' =>
      if char_differs str mtch i then false
      else startsWith_loop str mtch (S i) todo'
  end.

Definition startsWith (str mtch : string) : bool :=
  let end_ := Nat.min (String.length str) (String.length mtch) in
  startsWith_loop str mtch 0 end_.

(** One of the two strings is a prefix of the other. *)
Definition mutual_prefix (s t : string) : Prop :=
  (exists r, t = s +:+ r) \/ (exists r, s = t +:+ r).

(** ** [getDictFromName] (main.cpp, lines 163-173) *)

(** The enumerators of [cv::aruco::PREDEFINED_DICTIONARY_NAME] that the
    program names, with their values in OpenCV's header; [DICT_4X4_50] is
    the enumerator of value zero. *)
Definition DICT_4X4_50 : Z := 0.
Definition DICT_ARUCO_ORIGINAL : Z := 16.
Definition DICT_APRILTAG_16h5 : Z := 17.
Definition DICT_APRILTAG_25h9 : Z := 18.
Definition DICT_APRILTAG_36h10 : Z := 19.
Definition DICT_APRILTAG_36h11 : Z := 20.

(** A codebook is known by the enumerator it was built from. *)
Inductive Dictionary : Type :=
| PredefinedDictionary (name : Z).

Definition getPredefinedDictionary (name : Z) : Dictionary :=
  PredefinedDictionary name.

(** The local [std::unordered_map] after its six assignments. *)
Definition supported : gmap string Z :=
  <["APRILTAG_36H11" := DICT_APRILTAG_36h11]>
  (<["APRILTAG_36H10" := DICT_APRILTAG_36h10]>
  (<["APRILTAG_25H9" := DICT_APRILTAG_25h9]>
  (<["APRILTAG_16H5" := DICT_APRILTAG_16h5]>
  (<["ARUCO" := DICT_ARUCO_ORIGINAL]>
  (<["DEFAULT" := DICT_ARUCO_ORIGINAL]> ∅))))).

(** [supported[name]]: [operator[]] on an absent key inserts a
    value-initialised enumerator, that is zero, and returns it. *)
Definition supported_at (name : string) : Z :=
  default 0 (supported !! name).

Definition getDictFromName (name : string) : Dictionary :=
  getPredefinedDictionary (supported_at name).

(** The names the map was filled with. *)
Definition supported_names : list string :=
  ["DEFAULT"; "ARUCO"; "APRILTAG_16H5"; "APRILTAG_25H9";
   "APRILTAG_36H10"; "APRILTAG_36H11"].

(** ** Data model *)

Definition Point2f : Type := (float * float)%type.
Definition Vec3f : Type := (float * float * float)%type.

(** A coordinate of an object point as line 58 to 61 write it: the
    literal [0], or the binary32 expressions [m/2.f] and [-m/2.f] of the
    marker size [m].  The quotient is not a rational function of [m]
    (it can round to zero, and the size may be infinite or not a
    number), so the expression is kept and no value is given to it. *)
Inductive Coordinate : Type :=
| Zero
| HalfOf (m : float)
| MinusHalfOf (m : float).

Definition ObjPoint : Type := (Coordinate * Coordinate * Coordinate)%type.

(** [struct RunConfiguration] (main.cpp, lines 15-25).  [markerSizeMM] is
    the one member that [parseArgs] leaves unassigned on its early
    returns: [None] stands for the indeterminate value. *)
Record RunConfiguration : Type := mkRunConfiguration {
  mediaFilepath : string;
  dictionaryName : string;
  markerSizeMM : option float;
  cameraFocalLengthMM : float;
  startFrame : Z;
  endFrame : Z;
  quit : bool;
  printEmptyFrames : bool;
  errorMessage : string
}.

(** A [cv::Mat] holding a decoded frame.  Besides its dimensions the
    program looks at a frame only through [cv::aruco::detectMarkers], so a
    frame carries what that OpenCV primitive finds in it under a given
    dictionary: the [markerCorners] and [markerIds] vectors. *)
Record Mat : Type := mkMat {
  rows : Z;
  cols : Z;
  found : Dictionary -> list (list Point2f) * list Z
}.

(** [cv::Mat frame;] an empty matrix, zero rows and zero columns. *)
Definition emptyMat : Mat :=
  {| rows := 0; cols := 0; found := fun _ => ([], []) |}.

Definition detectMarkers (frame : Mat) (dictionary : Dictionary)
  : list (list Point2f) * list Z :=
  found frame dictionary.

(** A matrix written through [at<float>(r, c) = v] is the finite map of
    the slots that were assigned; likewise for [at<float>(k)] and for
    [ptr<cv::Vec3f>(0)[k]]. *)
Abbreviation Matrix := (gmap (Z * Z) float).
Abbreviation Vector := (gmap Z float).
Abbreviation Points3f := (gmap Z ObjPoint).

(** ** Effects *)

(** What the program does that can be seen from outside.  [SolvePnP]
    records a call of [cv::solvePnP] with its four inputs; the rotation
    and translation it writes are never read by the program, and the call
    is taken to return. *)
Inductive Event : Type :=
| Cerr (line : string)
| Cout (line : string)
| Open (path : string) (ok : bool)
| Read (ok : bool)
| SolvePnP (objPoints : Points3f) (corners : list Point2f)
    (cameraMatrix : Matrix) (cameraDistortion : Vector)
| Release.

(** How a run ends: [main] returns a code, an exception nobody catches
    reaches [std::terminate], or the behaviour is undefined (overflow of a
    signed counter, read of an indeterminate member). *)
Inductive Termination : Type :=
| Return (code : Z)
| Terminate (e : Exception)
| Undefined.

Inductive Flow (A : Type) : Type :=
| Next (a : A)
| Halt (t : Termination).
Arguments Next {A} a.
Arguments Halt {A} t.

(** A piece of the program: the events it produces, then either a value
    to go on with or the end of the run. *)
Definition Prog (A : Type) : Type := (list Event * Flow A)%type.

Definition emit (e : Event) : Prog unit := ([e], Next tt).
Definition emits (es : list Event) : Prog unit := (es, Next tt).
Definition halt {A : Type} (t : Termination) : Prog A := ([], Halt t).

#[global] Instance Prog_ret : MRet Prog := fun A a => ([], Next a).
#[global] Instance Prog_bind : MBind Prog := fun A B f m =>
  match m with
  | (tr, Next a) => let '(tr', r) := f a in (tr ++ tr', r)
  | (tr, Halt t) => (tr, Halt t)
  end.

(** The lines written to standard output, in order. *)
Definition stdout (tr : list Event) : list string :=
  omap (fun e => match e with Cout l => Some l | _ => None end) tr.

(** The lines written to standard error, in order. *)
Definition stderr (tr : list Event) : list string :=
  omap (fun e => match e with Cerr l => Some l | _ => None end) tr.

(** The outcomes of the calls to [video.read], in order. *)
Definition reads (tr : list Event) : list bool :=
  omap (fun e => match e with Read ok => Some ok | _ => None end) tr.

(** The paths handed to [cv::VideoCapture], in order. *)
Definition opens (tr : list Event) : list string :=
  omap (fun e => match e with Open path _ => Some path | _ => None end) tr.

(** ** [printJSONL] (main.cpp, lines 175-187) *)

(** The text the loop writes for the identifiers from position [i] on:
    an object per marker, a comma after every object but the last. *)
Fixpoint printJSONL_detections (markerIds : list Z) : string :=
  match markerIds with
  | [] => EmptyString
  | id :: rest =>
      "{" +:+ dq +:+ "marker_id" +:+ dq +:+ ":" +:+ pretty id +:+ "," +:+ "}"
      +:+ (match rest with [] => EmptyString | _ :: _ => "," end)
      +:+ printJSONL_detections rest
  end.

Definition printJSONL (frame : Z) (markerIds : list Z)
    (markerCorners : list (list Point2f))
    (markerTranslations markerRotations : list Vec3f) : Prog unit :=
  emit (Cout ("{" +:+ dq +:+ "frame_id" +:+ dq +:+ ":" +:+ pretty frame +:+ ","
              +:+ dq +:+ "detections" +:+ dq +:+ ":["
              +:+ printJSONL_detections markerIds +:+ "]}")).

(** ** [parseArgs] (main.cpp, lines 111-151) *)

Definition usage_message : string :=
  "Usage: app path_to_mediafile dictionary_name marker_size_mm" +:+ nl
  +:+ "Optional Arguments: --focalmm=[The focal length of the camera in mm]"
  +:+ nl.

Definition not_enough_message : string :=
  "Not enough arguments. Usage: path_to_mediafile dictionary_name marker_size_mm".

(** The members as lines 112-118 leave them; the two strings are
    default-constructed. *)
Definition initialConfiguration : RunConfiguration :=
  {| mediaFilepath := EmptyString;
     dictionaryName := EmptyString;
     markerSizeMM := None;
     cameraFocalLengthMM := 1%Q;
     startFrame := 0;
     endFrame := 0;
     quit := false;
     printEmptyFrames := false;
     errorMessage := EmptyString |}.

Definition stopWith (msg : string) (cfg : RunConfiguration) : RunConfiguration :=
  {| mediaFilepath := mediaFilepath cfg;
     dictionaryName := dictionaryName cfg;
     markerSizeMM := markerSizeMM cfg;
     cameraFocalLengthMM := cameraFocalLengthMM cfg;
     startFrame := startFrame cfg;
     endFrame := endFrame cfg;
     quit := true;
     printEmptyFrames := printEmptyFrames cfg;
     errorMessage := msg |}.

Definition withPositionals (path name : string) (size : float)
    (cfg : RunConfiguration) : RunConfiguration :=
  {| mediaFilepath := path;
     dictionaryName := name;
     markerSizeMM := Some size;
     cameraFocalLengthMM := cameraFocalLengthMM cfg;
     startFrame := startFrame cfg;
     endFrame := endFrame cfg;
     quit := quit cfg;
     printEmptyFrames := printEmptyFrames cfg;
     errorMessage := errorMessage cfg |}.

Definition withPrintEmptyFrames (cfg : RunConfiguration) : RunConfiguration :=
  {| mediaFilepath := mediaFilepath cfg;
     dictionaryName := dictionaryName cfg;
     markerSizeMM := markerSizeMM cfg;
     cameraFocalLengthMM := cameraFocalLengthMM cfg;
     startFrame := startFrame cfg;
     endFrame := endFrame cfg;
     quit := quit cfg;
     printEmptyFrames := true;
     errorMessage := errorMessage cfg |}.

(** [strcmp(argv[i], "--help") == 0 || strcmp(argv[i], "-h") == 0] *)
Definition is_help (arg : string) : bool :=
  String.eqb arg "--help" || String.eqb arg "-h".

(** The body of the loop over the arguments from index 4 on.  The
    verbose test guards a comment only. *)
Definition parseOption (cfg : RunConfiguration) (arg : string)
  : RunConfiguration :=
  let cfg := if startsWith arg "-v" || startsWith arg "--verbose"
             then cfg else cfg in
  if startsWith arg "--print-empty-frames" then withPrintEmptyFrames cfg
  else cfg.

Section Program.

(** [std::stof] of the C++ library: the value read from the front of the
    text, or the exception it throws. *)
Variable stof : string -> Result float.

(** [argv] is the list of the arguments, the program name first; [argc]
    is its length. *)
Definition parseArgs (argv : list string) : Result RunConfiguration :=
  let argc := Z.of_nat (length argv) in
  let cfg := initialConfiguration in
  if existsb is_help argv then Returns (stopWith usage_message cfg)
  else if argc <? 4 then Returns (stopWith not_enough_message cfg)
  else
    let arg (i : nat) := default EmptyString (argv !! i) in
    match stof (arg 3%nat) with
    | Throws e => Throws e
    | Returns size =>
        Returns (fold_left parseOption (drop 4 argv)
                   (withPositionals (arg 1%nat) (arg 2%nat) size cfg))
    end.

(** ** [main] (main.cpp, lines 32-109) *)

(** What [cv::VideoCapture video(path)] finds behind a path: nothing that
    can be opened, or the frames of the stream in order. *)
Variable openVideo : string -> option (list Mat).

(** Lines 57-61: the corners of the marker in its own plane. *)
Definition objPointsOf (markerSizeMM : float) : Points3f :=
  <[3 := (MinusHalfOf markerSizeMM, MinusHalfOf markerSizeMM, Zero)]>
  (<[2 := (HalfOf markerSizeMM, MinusHalfOf markerSizeMM, Zero)]>
  (<[1 := (HalfOf markerSizeMM, HalfOf markerSizeMM, Zero)]>
  (<[0 := (MinusHalfOf markerSizeMM, HalfOf markerSizeMM, Zero)]> ∅))).

(** Lines 64-73: the nine assignments, made from the configuration and
    from [frame] as it is when they are reached. *)
Definition cameraMatrixOf (cfg : RunConfiguration) (frame : Mat) : Matrix :=
  <[(2, 2) := 1%Q]>
  (<[(2, 1) := 0%Q]>
  (<[(2, 0) := 0%Q]>
  (<[(1, 2) := (inject_Z (rows frame) / 2)%Q]>
  (<[(1, 1) := cameraFocalLengthMM cfg]>
  (<[(1, 0) := 0%Q]>
  (<[(0, 2) := (inject_Z (cols frame) / 2)%Q]>
  (<[(0, 1) := 0%Q]>
  (<[(0, 0) := cameraFocalLengthMM cfg]> ∅)))))))).

(** Lines 75-79. *)
Definition cameraDistortionOf : Vector :=
  <[3 := 0%Q]> (<[2 := 0%Q]> (<[1 := 0%Q]> (<[0 := 0%Q]> ∅))).

(** Line 103: the record written for a frame without markers. *)
Definition emptyFrameLine (i : Z) : string :=
  "{" +:+ dq +:+ "frame_id" +:+ dq +:+ ":" +:+ pretty i +:+ ", detections:[]}".

(** Line 48: the message of a start frame past the end of the stream. *)
Definition seekFailure : string := "Start frame was greater than video length.".

(** Lines 46-51: read and drop frames while [i < cfg.startFrame]; [frame]
    is the matrix the reads write into. *)
Fixpoint seekStart (cfg : RunConfiguration) (i : Z) (video : list Mat)
    (frame : Mat) : Prog (list Mat * Mat) :=
  if to_uint i <? startFrame cfg then
    match video with
    | [] =>
        emit (Read false);;
        emit (Cerr seekFailure);;
        halt (Return (-1))
    | f :: rest =>
        emit (Read true);;
        if i =? INT_MAX then halt Undefined
        else seekStart cfg (i + 1) rest f
    end
  else mret (video, frame).

(** Lines 92-104: what is done with one frame that was read. *)
Definition processFrame (cfg : RunConfiguration) (dictionary : Dictionary)
    (objPoints : Points3f) (cameraMatrix : Matrix) (cameraDistortion : Vector)
    (i : Z) (frame : Mat) : Prog unit :=
  let '(markerCorners, markerIds) := detectMarkers frame dictionary in
  match markerIds with
  | _ :: _ =>
      emits (map (fun corners =>
                    SolvePnP objPoints corners cameraMatrix cameraDistortion)
               markerCorners)
  | [] =>
      if printEmptyFrames cfg then emit (Cout (emptyFrameLine i))
      else mret tt
  end.

(** Lines 86-105: the loop over the frames from [cfg.startFrame] on. *)
Fixpoint frameLoop (cfg : RunConfiguration) (dictionary : Dictionary)
    (objPoints : Points3f) (cameraMatrix : Matrix) (cameraDistortion : Vector)
    (i : Z) (video : list Mat) : Prog unit :=
  if (to_uint i <? endFrame cfg) || (endFrame cfg =? 0) then
    match video with
    | [] => emit (Read false)
    | frame :: rest =>
        emit (Read true);;
        processFrame cfg dictionary objPoints cameraMatrix cameraDistortion
          i frame;;
        if i =? INT_MAX then halt Undefined
        else frameLoop cfg dictionary objPoints cameraMatrix cameraDistortion
               (i + 1) rest
    end
  else mret tt.

(** Lines 39-108: the run for a configuration that does not ask to quit. *)
Definition pipeline (cfg : RunConfiguration) : Prog unit :=
  match openVideo (mediaFilepath cfg) with
  | None =>
      emit (Open (mediaFilepath cfg) false);;
      emit (Cerr ("Failed to open video stream " +:+ mediaFilepath cfg));;
      halt (Return (-1))
  | Some video =>
      emit (Open (mediaFilepath cfg) true);;
      '(video, frame) ← seekStart cfg 0 video emptyMat;
      let dictionary := getDictFromName (dictionaryName cfg) in
      match markerSizeMM cfg with
      | None => halt Undefined
      | Some size =>
          let objPoints := objPointsOf size in
          let cameraMatrix := cameraMatrixOf cfg frame in
          let cameraDistortion := cameraDistortionOf in
          frameLoop cfg dictionary objPoints cameraMatrix cameraDistortion
            (to_int (startFrame cfg)) video;;
          emit Release;;
          halt (Return 0)
      end
  end.

(** Lines 33-37, then the run. *)
Definition mainProg (argv : list string) : Prog unit :=
  match parseArgs argv with
  | Throws e => halt (Terminate e)
  | Returns cfg =>
      if quit cfg then
        emit (Cerr (errorMessage cfg));;
        halt (Return (-1))
      else pipeline cfg
  end.

(** The trace of a whole run and the way it ended. *)
Definition main (argv : list string) : list Event * Termination :=
  match mainProg argv with
  | (tr, Halt t) => (tr, t)
  | (tr, Next _) => (tr, Return 0)
  end.

End Program.

(** ** Concrete surroundings, to run the program *)

(** A stand-in for [std::stof] on decimal text: optional white space, an
    optional sign, digits with an optional point, an optional exponent.
    Text that does not start with such a number raises
    [invalid_argument], as the library does.  The hexadecimal, infinity
    and not-a-number forms and the range check of the library are left
    out: the theorems below hold for any [stof], this one only feeds the
    examples. *)
Definition is_space (c : ascii) : bool :=
  let n := nat_of_ascii c in
  (n =? 32)%nat || ((9 <=? n)%nat && (n <=? 13)%nat).

Definition digit_of (c : ascii) : option Z :=
  let n := Z.of_nat (nat_of_ascii c) in
  if (48 <=? n) && (n <=? 57) then Some (n - 48) else None.

Fixpoint skip_spaces (s : string) : string :=
  match s with
  | String c s' => if is_space c then skip_spaces s' else s
  | EmptyString => s
  end.

(** Reads digits onto [acc]; returns the number read so far, how many
    digits it took and the rest of the text. *)
Fixpoint read_digits (s : string) (acc : Z) (count : Z) : Z * Z * string :=
  match s with
  | String c s' =>
      match digit_of c with
      | Some d => read_digits s' (10 * acc + d) (count + 1)
      | None => (acc, count, s)
      end
  | EmptyString => (acc, count, s)
  end.

Definition read_sign (s : string) : bool * string :=
  match s with
  | String "-" s' => (true, s')
  | String "+" s' => (false, s')
  | _ => (false, s)
  end.

Definition read_exponent (s : string) : Z :=
  match s with
  | String c s' =>
      if Ascii.eqb c "e" || Ascii.eqb c "E" then
        let '(neg, s'') := read_sign s' in
        let '(e, n, _) := read_digits s'' 0 0 in
        if n =? 0 then 0 else if neg then - e else e
      else 0
  | EmptyString => 0
  end.

Definition stof_decimal (text : string) : Result float :=
  let '(neg, s) := read_sign (skip_spaces text) in
  let '(whole, n1, s) := read_digits s 0 0 in
  let '(mant, n2, s) :=
    match s with
    | String "." s' => read_digits s' whole 0
    | _ => (whole, 0, s)
    end in
  if n1 + n2 =? 0 then Throws invalid_argument
  else
    let e := read_exponent s in
    let v := (inject_Z mant * Qpower (10 # 1) (e - n2))%Q in
    Returns (Qred (if neg then - v else v)%Q).

(** A file system with one video in it. *)
Definition oneVideo (path : string) (frames : list Mat)
  : string -> option (list Mat) :=
  fun p => if String.eqb p path then Some frames else None.

(** A frame of the given size in which the detector finds no marker. *)
Definition blankFrame (width height : Z) : Mat :=
  {| rows := height; cols := width; found := fun _ => ([], []) |}.

(** A frame in which the detector finds one marker, with the given
    identifier and corners, whatever the dictionary. *)
Definition markerFrame (width height : Z) (id : Z) (corners : list Point2f)
  : Mat :=
  {| rows := height; cols := width; found := fun _ => ([corners], [id]) |}.

(** Corners of a proper square and corners on one line. *)
Definition squareCorners : list Point2f :=
  [(100#1, 100#1); (200#1, 100#1); (200#1, 200#1); (100#1, 200#1)]%Q.
Definition collinearCorners : list Point2f :=
  [(100#1, 100#1); (200#1, 100#1); (300#1, 100#1); (400#1, 100#1)]%Q.

(** ** Vocabulary for the statements *)

(** The events of one frame's processing. *)
Definition frameEvents (cfg : RunConfiguration) (dictionary : Dictionary)
    (objPoints : Points3f) (cameraMatrix : Matrix) (cameraDistortion : Vector)
    (i : Z) (frame : Mat) : list Event :=
  fst (processFrame cfg dictionary objPoints cameraMatrix cameraDistortion
         i frame).

(** The detector reports no identifier in the frame. *)
Definition noMarkers (dictionary : Dictionary) (frame : Mat) : bool :=
  match snd (detectMarkers frame dictionary) with
  | [] => true
  | _ :: _ => false
  end.

(** The frames the loop reads while its condition holds, each with the
    value of the counter [i] it is processed under. *)
Fixpoint processedFrames (cfg : RunConfiguration) (i : Z) (video : list Mat)
  : list (Z * Mat) :=
  match video with
  | [] => []
  | frame :: rest =>
      if (to_uint i <? endFrame cfg) || (endFrame cfg =? 0)
      then (i, frame) :: processedFrames cfg (i + 1) rest
      else []
  end.

(** A configuration as [parseArgs] could have left it, with the frame
    range and the flag chosen freely. *)
Definition configuration (path name : string) (size : float)
    (first last : Z) (printEmpty : bool) : RunConfiguration :=
  {| mediaFilepath := path;
     dictionaryName := name;
     markerSizeMM := Some size;
     cameraFocalLengthMM := 1%Q;
     startFrame := first;
     endFrame := last;
     quit := false;
     printEmptyFrames := printEmpty;
     errorMessage := EmptyString |}.

(** The corner lists handed to [cv::solvePnP], in order. *)
Definition solved (tr : list Event) : list (list Point2f) :=
  omap (fun e => match e with SolvePnP _ c _ _ => Some c | _ => None end) tr.

(** The positions, counted from [i], of the frames of a stream in which
    the detector reports no identifier. *)
Fixpoint blankIndices (dictionary : Dictionary) (i : Z) (video : list Mat)
  : list Z :=
  match video with
  | [] => []
  | frame :: rest =>
      (if noMarkers dictionary frame then [i] else [])
      ++ blankIndices dictionary (i + 1) rest
  end.

(** The corner lists of a frame that take the pose-solve branch: those of
    a frame whose identifier vector is not empty. *)
Definition cornersToSolve (dictionary : Dictionary) (frame : Mat)
  : list (list Point2f) :=
  if noMarkers dictionary frame then []
  else fst (detectMarkers frame dictionary).

(** The object [printJSONL] writes for one marker. *)
Definition markerObject (id : Z) : string :=
  "{" +:+ dq +:+ "marker_id" +:+ dq +:+ ":" +:+ pretty id +:+ ",}".

(** The test of line 145 on one argument. *)
Definition asksEmptyFrames (arg : string) : bool :=
  startsWith arg "--print-empty-frames".

(** How [main] ends for the way its program ends; falling off the end
    of a piece counts as returning 0. *)
Definition statusOf (r : Flow unit) : Termination :=
  match r with
  | Halt t => t
  | Next _ => Return 0
  end.

(** The camera matrix as [main] fills it in when it starts from frame
    zero, as every run started from a command line does: the focal
    length of [parseArgs] and the still empty [frame]. *)
Definition mainCameraMatrix : Matrix :=
  cameraMatrixOf initialConfiguration emptyMat.

(** * Properties *)

(** ** [startsWith] accepts mutual prefixes *)

Lemma startsWith_loop_shift a b s t i todo :
  startsWith_loop (String a s) (String b t) (S i) todo
  = startsWith_loop s t i todo.
Proof.
  revert i. induction todo as [|todo IH]; intros i; simpl; [reflexivity|].
  rewrite IH. reflexivity.
Qed.

Lemma startsWith_nil_l t : startsWith EmptyString t = true.
Proof. reflexivity. Qed.

Lemma startsWith_nil_r s : startsWith s EmptyString = true.
Proof. unfold startsWith. rewrite Nat.min_0_r. reflexivity. Qed.

Lemma startsWith_cons a b s t :
  startsWith (String a s) (String b t) = Ascii.eqb a b && startsWith s t.
Proof.
  unfold startsWith. simpl String.length. rewrite <- Nat.succ_min_distr.
  simpl. unfold char_differs at 1. simpl.
  rewrite startsWith_loop_shift.
  destruct (Ascii.eqb a b); reflexivity.
Qed.

Lemma startsWith_mutual_prefix str mtch :
  startsWith str mtch = true <-> mutual_prefix str mtch.
Proof.
  revert mtch. induction str as [|a s IH]; intros mtch.
  - rewrite startsWith_nil_l. split; [|reflexivity].
    intros _. left. exists mtch. reflexivity.
  - destruct mtch as [|b t].
    + rewrite startsWith_nil_r. split; [|reflexivity].
      intros _. right. exists (String a s). reflexivity.
    + rewrite startsWith_cons, andb_true_iff, Ascii.eqb_eq, IH.
      unfold mutual_prefix. simpl. split.
      * intros [-> [[r ->]|[r ->]]]; [left|right]; exists r; reflexivity.
      * intros [[r H]|[r H]]; injection H as -> ->;
          (split; [reflexivity|]); [left|right]; exists r; reflexivity.
Qed.

Example startsWith_short_flag :
  startsWith "--p" "--print-empty-frames" = true
  /\ startsWith "-" "--print-empty-frames" = true
  /\ startsWith EmptyString "--print-empty-frames" = true
  /\ startsWith "--print-empty-framesEXTRA" "--print-empty-frames" = true
  /\ startsWith "--print-empty-frames" "--print-empty-frames" = true
  /\ startsWith "--quiet" "--print-empty-frames" = false.
Proof. repeat split; reflexivity. Qed.

(** ** The option loop of [parseArgs] *)

Lemma parseOption_printEmptyFrames cfg arg :
  printEmptyFrames (parseOption cfg arg)
  = printEmptyFrames cfg || startsWith arg "--print-empty-frames".
Proof.
  unfold parseOption.
  destruct (startsWith arg "-v" || startsWith arg "--verbose");
    destruct (startsWith arg "--print-empty-frames"); simpl;
    rewrite ?orb_true_r, ?orb_false_r; reflexivity.
Qed.

Lemma parseOption_fields cfg arg :
  mediaFilepath (parseOption cfg arg) = mediaFilepath cfg
  /\ dictionaryName (parseOption cfg arg) = dictionaryName cfg
  /\ markerSizeMM (parseOption cfg arg) = markerSizeMM cfg
  /\ cameraFocalLengthMM (parseOption cfg arg) = cameraFocalLengthMM cfg
  /\ startFrame (parseOption cfg arg) = startFrame cfg
  /\ endFrame (parseOption cfg arg) = endFrame cfg
  /\ quit (parseOption cfg arg) = quit cfg
  /\ errorMessage (parseOption cfg arg) = errorMessage cfg.
Proof.
  unfold parseOption.
  destruct (startsWith arg "-v" || startsWith arg "--verbose");
    destruct (startsWith arg "--print-empty-frames"); simpl; tauto.
Qed.

Lemma options_printEmptyFrames args cfg :
  printEmptyFrames (fold_left parseOption args cfg)
  = printEmptyFrames cfg
    || existsb (fun arg => startsWith arg "--print-empty-frames") args.
Proof.
  revert cfg. induction args as [|arg args IH]; intros cfg; simpl.
  - rewrite orb_false_r. reflexivity.
  - rewrite IH, parseOption_printEmptyFrames, orb_assoc. reflexivity.
Qed.

Lemma options_fields args cfg :
  mediaFilepath (fold_left parseOption args cfg) = mediaFilepath cfg
  /\ dictionaryName (fold_left parseOption args cfg) = dictionaryName cfg
  /\ markerSizeMM (fold_left parseOption args cfg) = markerSizeMM cfg
  /\ cameraFocalLengthMM (fold_left parseOption args cfg)
     = cameraFocalLengthMM cfg
  /\ startFrame (fold_left parseOption args cfg) = startFrame cfg
  /\ endFrame (fold_left parseOption args cfg) = endFrame cfg
  /\ quit (fold_left parseOption args cfg) = quit cfg
  /\ errorMessage (fold_left parseOption args cfg) = errorMessage cfg.
Proof.
  revert cfg. induction args as [|arg args IH]; intros cfg; simpl.
  - tauto.
  - destruct (IH (parseOption cfg arg)) as (H1 & H2 & H3 & H4 & H5 & H6 & H7 & H8).
    destruct (parseOption_fields cfg arg) as (G1 & G2 & G3 & G4 & G5 & G6 & G7 & G8).
    repeat split; congruence.
Qed.

(** The three ways [parseArgs] can go. *)
Lemma parseArgs_cases stof argv :
  (existsb is_help argv = true
   /\ parseArgs stof argv = Returns (stopWith usage_message initialConfiguration))
  \/ (existsb is_help argv = false /\ (length argv < 4)%nat
      /\ parseArgs stof argv
         = Returns (stopWith not_enough_message initialConfiguration))
  \/ (existsb is_help argv = false /\ (4 <= length argv)%nat
      /\ exists a1 a2 a3,
           argv !! 1%nat = Some a1 /\ argv !! 2%nat = Some a2
           /\ argv !! 3%nat = Some a3
           /\ parseArgs stof argv
              = match stof a3 with
                | Throws e => Throws e
                | Returns size =>
                    Returns (fold_left parseOption (drop 4 argv)
                               (withPositionals a1 a2 size initialConfiguration))
                end).
Proof.
  unfold parseArgs.
  destruct (existsb is_help argv) eqn:Hh; [left; split; reflexivity|].
  right.
  destruct (Z.of_nat (length argv) <? 4) eqn:Hc.
  - left. apply Z.ltb_lt in Hc. split; [reflexivity|split; [lia|reflexivity]].
  - right. apply Z.ltb_ge in Hc. split; [reflexivity|]. split; [lia|].
    destruct argv as [|a0 [|a1 [|a2 [|a3 rest]]]]; simpl in Hc; try lia.
    exists a1, a2, a3. repeat split; reflexivity.
Qed.

(** ** One frame *)

Lemma processFrame_next cfg dict o m d i frame :
  processFrame cfg dict o m d i frame
  = (frameEvents cfg dict o m d i frame, Next tt).
Proof.
  unfold frameEvents, processFrame.
  destruct (detectMarkers frame dict) as [cs [|id ids]]; [|reflexivity].
  destruct (printEmptyFrames cfg); reflexivity.
Qed.

Lemma frameEvents_noMarkers cfg dict o m d i frame :
  noMarkers dict frame = true ->
  frameEvents cfg dict o m d i frame
  = if printEmptyFrames cfg then [Cout (emptyFrameLine i)] else [].
Proof.
  unfold noMarkers, frameEvents, processFrame.
  destruct (detectMarkers frame dict) as [cs [|id ids]]; simpl; [|discriminate].
  intros _. destruct (printEmptyFrames cfg); reflexivity.
Qed.

Lemma frameEvents_markers cfg dict o m d i frame :
  noMarkers dict frame = false ->
  frameEvents cfg dict o m d i frame
  = map (fun corners => SolvePnP o corners m d)
      (fst (detectMarkers frame dict)).
Proof.
  unfold noMarkers, frameEvents, processFrame.
  destruct (detectMarkers frame dict) as [cs [|id ids]]; simpl;
    [discriminate|reflexivity].
Qed.

Lemma stdout_map_SolvePnP o m d (cs : list (list Point2f)) :
  stdout (map (fun corners => SolvePnP o corners m d) cs) = [].
Proof. induction cs as [|c cs IH]; [reflexivity|exact IH]. Qed.

Lemma stdout_frameEvents cfg dict o m d i frame :
  stdout (frameEvents cfg dict o m d i frame)
  = if noMarkers dict frame && printEmptyFrames cfg
    then [emptyFrameLine i] else [].
Proof.
  destruct (noMarkers dict frame) eqn:Hn.
  - rewrite frameEvents_noMarkers by exact Hn.
    destruct (printEmptyFrames cfg); reflexivity.
  - rewrite frameEvents_markers by exact Hn. apply stdout_map_SolvePnP.
Qed.

Lemma frameEvents_solves cfg dict o m d i frame o' c m' d' :
  In (SolvePnP o' c m' d') (frameEvents cfg dict o m d i frame) ->
  o' = o /\ m' = m /\ d' = d.
Proof.
  destruct (noMarkers dict frame) eqn:Hn.
  - rewrite frameEvents_noMarkers by exact Hn.
    destruct (printEmptyFrames cfg); simpl; [|tauto].
    intros [H|[]]. discriminate.
  - rewrite frameEvents_markers by exact Hn.
    intros H. apply in_map_iff in H. destruct H as (c0 & H & _).
    injection H as -> _ -> ->. repeat split.
Qed.

(** ** The frame loop *)

Lemma frameLoop_cons cfg dict o m d i frame rest :
  frameLoop cfg dict o m d i (frame :: rest)
  = if (to_uint i <? endFrame cfg) || (endFrame cfg =? 0) then
      let '(tr, r) := if i =? INT_MAX then halt Undefined
                      else frameLoop cfg dict o m d (i + 1) rest in
      (Read true :: frameEvents cfg dict o m d i frame ++ tr, r)
    else ([], Next tt).
Proof.
  simpl.
  destruct ((to_uint i <? endFrame cfg) || (endFrame cfg =? 0)); [|reflexivity].
  rewrite processFrame_next. cbn.
  destruct (if i =? INT_MAX then halt Undefined
            else frameLoop cfg dict o m d (i + 1) rest); reflexivity.
Qed.

Lemma frameLoop_nil cfg dict o m d i :
  frameLoop cfg dict o m d i []
  = if (to_uint i <? endFrame cfg) || (endFrame cfg =? 0)
    then ([Read false], Next tt) else ([], Next tt).
Proof. reflexivity. Qed.

(** Every pose solve of the loop is given the object points, the camera
    matrix and the distortion vector the loop was entered with. *)
Lemma frameLoop_solves cfg dict o m d video : forall i o' c m' d',
  In (SolvePnP o' c m' d') (fst (frameLoop cfg dict o m d i video)) ->
  o' = o /\ m' = m /\ d' = d.
Proof.
  induction video as [|frame rest IH]; intros i o' c m' d'.
  - rewrite frameLoop_nil.
    destruct ((to_uint i <? endFrame cfg) || (endFrame cfg =? 0)); simpl;
      [intros [H|[]]; discriminate|tauto].
  - rewrite frameLoop_cons.
    destruct ((to_uint i <? endFrame cfg) || (endFrame cfg =? 0)); simpl;
      [|tauto].
    destruct (i =? INT_MAX).
    + simpl. intros [H|H]; [discriminate|].
      rewrite app_nil_r in H. eapply frameEvents_solves; eassumption.
    + destruct (frameLoop cfg dict o m d (i + 1) rest) as [tr r] eqn:Hl.
      simpl. intros [H|H]; [discriminate|].
      apply in_app_or in H. destruct H as [H|H].
      * eapply frameEvents_solves; eassumption.
      * apply (IH (i + 1) o' c m' d'). rewrite Hl. exact H.
Qed.

(** As long as the counter cannot overflow, the loop runs to its end,
    and what it writes to standard output is what the frames it
    processed wrote, in their order. *)
Lemma frameLoop_stdout cfg dict o m d video : forall i,
  i + Z.of_nat (length video) <= INT_MAX ->
  snd (frameLoop cfg dict o m d i video) = Next tt
  /\ stdout (fst (frameLoop cfg dict o m d i video))
     = flat_map (fun kf => stdout (frameEvents cfg dict o m d (fst kf) (snd kf)))
         (processedFrames cfg i video).
Proof.
  induction video as [|frame rest IH]; intros i Hi.
  - rewrite frameLoop_nil.
    destruct ((to_uint i <? endFrame cfg) || (endFrame cfg =? 0)); split;
      reflexivity.
  - rewrite frameLoop_cons. simpl processedFrames.
    destruct ((to_uint i <? endFrame cfg) || (endFrame cfg =? 0));
      [|split; reflexivity].
    simpl length in Hi.
    destruct (i =? INT_MAX) eqn:Hmax; [apply Z.eqb_eq in Hmax; lia|].
    destruct (IH (i + 1)) as [Hs Ho]; [lia|].
    destruct (frameLoop cfg dict o m d (i + 1) rest) as [tr r].
    simpl in Hs, Ho. simpl. split; [exact Hs|].
    unfold stdout at 1. simpl. fold (stdout (frameEvents cfg dict o m d i frame ++ tr)).
    unfold stdout at 1. rewrite omap_app. fold (stdout tr).
    fold (stdout (frameEvents cfg dict o m d i frame)).
    rewrite Ho. reflexivity.
Qed.

Lemma processedFrames_index cfg video : forall i k frame,
  In (k, frame) (processedFrames cfg i video) ->
  i <= k /\ video !! Z.to_nat (k - i) = Some frame.
Proof.
  induction video as [|f rest IH]; intros i k frame; simpl; [tauto|].
  destruct ((to_uint i <? endFrame cfg) || (endFrame cfg =? 0)); simpl;
    [|tauto].
  intros [H|H].
  - injection H as -> ->. split; [lia|]. rewrite Z.sub_diag. reflexivity.
  - apply IH in H. destruct H as [Hk Hl]. split; [lia|].
    replace (Z.to_nat (k - i)) with (S (Z.to_nat (k - (i + 1)))) by lia.
    exact Hl.
Qed.

Lemma stdout_app (tr1 tr2 : list Event) :
  stdout (tr1 ++ tr2) = (stdout tr1 ++ stdout tr2)%list.
Proof. unfold stdout. apply omap_app. Qed.

Lemma stdout_replicate_Read n b : stdout (replicate n (Read b)) = [].
Proof. induction n as [|n IH]; [reflexivity|exact IH]. Qed.

(** ** Skipping to the start frame *)

Lemma to_uint_small z : 0 <= z <= INT_MAX -> to_uint z = z.
Proof.
  unfold to_uint, INT_MAX, UINT_MOD. intros H. apply Z.mod_small. lia.
Qed.

Lemma to_int_small z : 0 <= z <= INT_MAX -> to_int z = z.
Proof.
  intros H. unfold to_int. rewrite to_uint_small by exact H.
  destruct (z <=? INT_MAX) eqn:E; [reflexivity|]. apply Z.leb_gt in E. lia.
Qed.

Lemma seekStart_run cfg video : forall i frame,
  0 <= i <= startFrame cfg -> startFrame cfg <= INT_MAX ->
  seekStart cfg i video frame
  = if i + Z.of_nat (length video) <? startFrame cfg
    then (replicate (length video) (Read true)
            ++ [Read false; Cerr seekFailure], Halt (Return (-1)))
    else (replicate (Z.to_nat (startFrame cfg - i)) (Read true),
          Next (drop (Z.to_nat (startFrame cfg - i)) video,
                default frame
                  (last (take (Z.to_nat (startFrame cfg - i)) video)))).
Proof.
  induction video as [|f rest IH]; intros i frame Hi Hs.
  - simpl. rewrite to_uint_small by lia. rewrite Z.add_0_r.
    destruct (i <? startFrame cfg) eqn:E; [reflexivity|].
    apply Z.ltb_ge in E. replace (startFrame cfg - i) with 0 by lia.
    reflexivity.
  - simpl seekStart. rewrite to_uint_small by lia.
    destruct (i <? startFrame cfg) eqn:E.
    + apply Z.ltb_lt in E.
      destruct (i =? INT_MAX) eqn:Hmax; [apply Z.eqb_eq in Hmax; lia|].
      rewrite IH by lia.
      replace (i + Z.of_nat (length (f :: rest)))
        with (i + 1 + Z.of_nat (length rest)) by (simpl length; lia).
      destruct (i + 1 + Z.of_nat (length rest) <? startFrame cfg);
        [reflexivity|].
      replace (Z.to_nat (startFrame cfg - i))
        with (S (Z.to_nat (startFrame cfg - (i + 1)))) by lia.
      cbn. do 3 f_equal. rewrite last_cons.
      destruct (last (take (Z.to_nat (startFrame cfg - (i + 1))) rest));
        reflexivity.
    + apply Z.ltb_ge in E.
      replace (i + Z.of_nat (length (f :: rest)) <? startFrame cfg) with false
        by (symmetry; apply Z.ltb_ge; simpl length; lia).
      replace (startFrame cfg - i) with 0 by lia. reflexivity.
Qed.

(** The run once the video is open and holds enough frames: the frames
    before the start frame are read and dropped, the loop runs on the
    rest, the stream is released. *)
Lemma pipeline_run openVideo cfg video size :
  openVideo (mediaFilepath cfg) = Some video ->
  markerSizeMM cfg = Some size ->
  0 <= startFrame cfg <= Z.of_nat (length video) ->
  Z.of_nat (length video) <= INT_MAX ->
  exists frame,
    pipeline openVideo cfg
    = (Open (mediaFilepath cfg) true
         :: replicate (Z.to_nat (startFrame cfg)) (Read true)
         ++ fst (frameLoop cfg (getDictFromName (dictionaryName cfg))
                   (objPointsOf size) (cameraMatrixOf cfg frame)
                   cameraDistortionOf (startFrame cfg)
                   (drop (Z.to_nat (startFrame cfg)) video))
         ++ [Release],
       Halt (Return 0))
    /\ frame = default emptyMat (last (take (Z.to_nat (startFrame cfg)) video)).
Proof.
  intros Hopen Hsize Hs Hlen.
  exists (default emptyMat (last (take (Z.to_nat (startFrame cfg)) video))).
  split; [|reflexivity].
  unfold pipeline. rewrite Hopen. cbn.
  rewrite seekStart_run by lia.
  replace (0 + Z.of_nat (length video) <? startFrame cfg) with false
    by (symmetry; apply Z.ltb_ge; lia).
  rewrite Z.sub_0_r. cbn. rewrite Hsize. rewrite to_int_small by lia.
  set (m := cameraMatrixOf cfg _).
  destruct (frameLoop_stdout cfg (getDictFromName (dictionaryName cfg))
              (objPointsOf size) m cameraDistortionOf
              (drop (Z.to_nat (startFrame cfg)) video) (startFrame cfg))
    as [Hnext _].
  { rewrite length_drop. lia. }
  destruct (frameLoop cfg (getDictFromName (dictionaryName cfg))
              (objPointsOf size) m cameraDistortionOf (startFrame cfg)
              (drop (Z.to_nat (startFrame cfg)) video)) as [tr r].
  simpl in Hnext. subst r. cbn. reflexivity.
Qed.

(** * The claims *)

(** C1, the code at a failing input: a video of one frame in which the
    detector finds marker 7, run as [app video.mp4 ARUCO 50.0].  The
    frame is read and its pose solve is called, the run returns 0, and no
    line at all reaches standard output, where the claim has one record
    with the marker in it.  [printJSONL], which would write such a
    record, is never called by [main]. *)
Theorem C1_detected_frame_emits_nothing :
  let frame := markerFrame 640 480 7 squareCorners in
  let run := main stof_decimal (oneVideo "video.mp4" [frame])
               ["app"; "video.mp4"; "ARUCO"; "50.0"] in
  snd (detectMarkers frame (getDictFromName "ARUCO")) = [7]
  /\ snd run = Return 0
  /\ reads (fst run) = [true; false]
  /\ stdout (fst run) = []
  /\ fst (printJSONL 0 [7] [squareCorners] [] [])
     = [Cout ("{" +:+ dq +:+ "frame_id" +:+ dq +:+ ":0," +:+ dq +:+ "detections"
              +:+ dq +:+ ":[{" +:+ dq +:+ "marker_id" +:+ dq +:+ ":7,}]}")].
Proof. repeat split; reflexivity. Qed.

(** C4, the code at a failing input: the same run on a 640 by 480 video.
    The camera matrix is filled in before the loop reads its first frame,
    from the still empty [frame], so the principal point handed to the
    pose solve is (0, 0) and not (320, 240).  The focal entries, the zero
    skew and the four zero distortion coefficients are as claimed. *)
Theorem C4_principal_point_of_unread_frame :
  let frame := markerFrame 640 480 7 squareCorners in
  let run := main stof_decimal (oneVideo "video.mp4" [frame])
               ["app"; "video.mp4"; "ARUCO"; "50.0"] in
  exists objPoints cameraMatrix cameraDistortion,
    fst run = [Open "video.mp4" true; Read true;
               SolvePnP objPoints squareCorners cameraMatrix cameraDistortion;
               Read false; Release]
    /\ cameraMatrix !! (0, 0) = Some 1%Q
    /\ cameraMatrix !! (1, 1) = Some 1%Q
    /\ cameraMatrix !! (0, 1) = Some 0%Q
    /\ cameraDistortion = cameraDistortionOf
    /\ cameraMatrix !! (0, 2) = Some (inject_Z 0 / 2)%Q
    /\ cameraMatrix !! (1, 2) = Some (inject_Z 0 / 2)%Q
    /\ ~ (inject_Z 0 / 2 == inject_Z (cols frame) / 2)%Q
    /\ ~ (inject_Z 0 / 2 == inject_Z (rows frame) / 2)%Q.
Proof.
  intros frame run.
  exists (objPointsOf 50%Q), (cameraMatrixOf initialConfiguration emptyMat),
    cameraDistortionOf.
  repeat split; try reflexivity; vm_compute; discriminate.
Qed.

(** ** The dictionary resolver *)

Lemma supported_at_other name :
  ~ In name supported_names -> supported_at name = 0.
Proof.
  intros Hn. unfold supported_at, supported.
  rewrite !lookup_insert_ne; [rewrite lookup_empty; reflexivity|..];
    intros <-; apply Hn; simpl; tauto.
Qed.

(** C2 (as amended): each of the six supported names resolves to its
    predefined codebook, DEFAULT and ARUCO to the same one.  A name
    outside the set raises no error: the lookup yields the enumerator of
    value zero and the resolver returns that predefined codebook. *)
Theorem C2_dictionary_resolution :
  getDictFromName "DEFAULT" = getPredefinedDictionary DICT_ARUCO_ORIGINAL
  /\ getDictFromName "ARUCO" = getPredefinedDictionary DICT_ARUCO_ORIGINAL
  /\ getDictFromName "APRILTAG_16H5" = getPredefinedDictionary DICT_APRILTAG_16h5
  /\ getDictFromName "APRILTAG_25H9" = getPredefinedDictionary DICT_APRILTAG_25h9
  /\ getDictFromName "APRILTAG_36H10"
     = getPredefinedDictionary DICT_APRILTAG_36h10
  /\ getDictFromName "APRILTAG_36H11"
     = getPredefinedDictionary DICT_APRILTAG_36h11
  /\ (forall name, ~ In name supported_names ->
        getDictFromName name = getPredefinedDictionary DICT_4X4_50).
Proof.
  repeat split; try reflexivity.
  intros name Hn. unfold getDictFromName.
  rewrite supported_at_other by exact Hn. reflexivity.
Qed.

Lemma C2_dictionary_resolution_witness :
  ~ In "BOGUS" supported_names
  /\ getDictFromName "BOGUS" = getPredefinedDictionary DICT_4X4_50.
Proof.
  assert (H : ~ In "BOGUS" supported_names).
  { simpl. intros [H|[H|[H|[H|[H|[H|[]]]]]]]; discriminate. }
  split; [exact H|].
  destruct C2_dictionary_resolution as (_ & _ & _ & _ & _ & _ & Hother).
  apply Hother. exact H.
Defined.

(** C2, the claim as written fails: [app video.mp4 BOGUS 50.0
    --print-empty-frames] on a video of one frame without markers.  The
    unknown name stops nothing: the frame is read, its record is written
    to standard output and the run returns 0. *)
Lemma C2_unknown_dictionary_runs :
  let run := main stof_decimal (oneVideo "video.mp4" [blankFrame 640 480])
               ["app"; "video.mp4"; "BOGUS"; "50.0"; "--print-empty-frames"] in
  ~ In "BOGUS" supported_names
  /\ fst run = [Open "video.mp4" true; Read true; Cout (emptyFrameLine 0);
                Read false; Release]
  /\ snd run = Return 0
  /\ reads (fst run) <> []
  /\ stdout (fst run) <> [].
Proof.
  intros run. split.
  { simpl. intros [H|[H|[H|[H|[H|[H|[]]]]]]]; discriminate. }
  repeat split; try reflexivity; vm_compute; discriminate.
Qed.

(** ** The camera model of a run *)

Lemma seekStart_solves cfg video : forall i frame o c m d,
  ~ In (SolvePnP o c m d) (fst (seekStart cfg i video frame)).
Proof.
  induction video as [|f rest IH]; intros i frame o c m d; simpl.
  - destruct (to_uint i <? startFrame cfg); simpl; [|tauto].
    intros [H|[H|[]]]; discriminate.
  - destruct (to_uint i <? startFrame cfg); simpl; [|tauto].
    destruct (i =? INT_MAX).
    + simpl. intros [H|[]]. discriminate.
    + specialize (IH (i + 1) f o c m d).
      destruct (seekStart cfg (i + 1) rest f) as [tr r]. cbn.
      intros [H|H]; [discriminate|]. apply IH. exact H.
Qed.

(** All the pose solves of a run are handed one and the same camera
    matrix, built from the configuration and from one [frame] value, and
    the zero distortion vector. *)
Lemma pipeline_solves openVideo cfg :
  exists frame, forall o c m d,
    In (SolvePnP o c m d) (fst (pipeline openVideo cfg)) ->
    m = cameraMatrixOf cfg frame /\ d = cameraDistortionOf.
Proof.
  unfold pipeline. destruct (openVideo (mediaFilepath cfg)) as [video|].
  2:{ exists emptyMat. cbn. intros o c m d [H|[H|[]]]; discriminate. }
  pose proof (seekStart_solves cfg video 0 emptyMat) as Hseek.
  destruct (seekStart cfg 0 video emptyMat) as [tr [[video' frame]|t]].
  2:{ exists emptyMat. cbn. intros o c m d [H|H]; [discriminate|].
      exfalso. apply (Hseek o c m d). exact H. }
  exists frame. intros o c m d. cbn.
  destruct (markerSizeMM cfg) as [size|].
  2:{ cbn. rewrite app_nil_r. intros [H|H]; [discriminate|].
      exfalso. apply (Hseek o c m d). exact H. }
  pose proof (frameLoop_solves cfg (getDictFromName (dictionaryName cfg))
                (objPointsOf size) (cameraMatrixOf cfg frame)
                cameraDistortionOf video' (to_int (startFrame cfg)) o c m d)
    as Hloop.
  destruct (frameLoop cfg (getDictFromName (dictionaryName cfg))
              (objPointsOf size) (cameraMatrixOf cfg frame)
              cameraDistortionOf (to_int (startFrame cfg)) video')
    as [tr' [[]|t]]; cbn; cbn in Hloop.
  - intros [H|H]; [discriminate|]. apply in_app_or in H.
    destruct H as [H|H]; [exfalso; apply (Hseek o c m d); exact H|].
    apply in_app_or in H. destruct H as [H|[H|[]]]; [|discriminate].
    apply Hloop in H. tauto.
  - intros [H|H]; [discriminate|]. apply in_app_or in H.
    destruct H as [H|H]; [exfalso; apply (Hseek o c m d); exact H|].
    apply Hloop in H. tauto.
Qed.

Lemma parseArgs_focal stof argv cfg :
  parseArgs stof argv = Returns cfg -> cameraFocalLengthMM cfg = 1%Q.
Proof.
  destruct (parseArgs_cases stof argv)
    as [[_ ->]|[(_ & _ & ->)|(_ & _ & a1 & a2 & a3 & _ & _ & _ & ->)]].
  - intros [= <-]. reflexivity.
  - intros [= <-]. reflexivity.
  - destruct (stof a3) as [size|e]; [|discriminate].
    intros [= <-].
    destruct (options_fields (drop 4 argv)
                (withPositionals a1 a2 size initialConfiguration))
      as (_ & _ & _ & -> & _). reflexivity.
Qed.

Lemma main_trace stof openVideo argv :
  fst (main stof openVideo argv)
  = match parseArgs stof argv with
    | Throws _ => []
    | Returns cfg =>
        if quit cfg then [Cerr (errorMessage cfg)]
        else fst (pipeline openVideo cfg)
    end.
Proof.
  unfold main, mainProg. destruct (parseArgs stof argv) as [cfg|e];
    [|reflexivity].
  destruct (quit cfg); [reflexivity|].
  destruct (pipeline openVideo cfg) as [tr [[]|t]]; reflexivity.
Qed.

Lemma is_help_focalmm F : is_help ("--focalmm=" +:+ F) = false.
Proof. reflexivity. Qed.

Lemma parseOption_focalmm cfg F : parseOption cfg ("--focalmm=" +:+ F) = cfg.
Proof.
  unfold parseOption.
  replace (startsWith ("--focalmm=" +:+ F) "--print-empty-frames") with false.
  - destruct (startsWith ("--focalmm=" +:+ F) "-v"
              || startsWith ("--focalmm=" +:+ F) "--verbose"); reflexivity.
  - symmetry. cbv [String.append]. rewrite !startsWith_cons. reflexivity.
Qed.

Lemma cameraMatrixOf_focal cfg frame :
  cameraMatrixOf cfg frame !! (0, 0) = Some (cameraFocalLengthMM cfg)
  /\ cameraMatrixOf cfg frame !! (1, 1) = Some (cameraFocalLengthMM cfg).
Proof.
  unfold cameraMatrixOf. split.
  - rewrite !lookup_insert_ne by discriminate. apply lookup_insert_eq.
  - rewrite !lookup_insert_ne by discriminate. apply lookup_insert_eq.
Qed.

Lemma parseArgs_focalmm stof pre post F :
  (4 <= length pre)%nat ->
  parseArgs stof (pre ++ ("--focalmm=" +:+ F) :: post)
  = parseArgs stof (pre ++ post).
Proof.
  intros Hpre. unfold parseArgs.
  rewrite !existsb_app. cbn [existsb]. rewrite is_help_focalmm.
  cbn [orb].
  destruct (existsb is_help pre || existsb is_help post); [reflexivity|].
  replace (Z.of_nat (length (pre ++ ("--focalmm=" +:+ F) :: post)) <? 4)
    with false
    by (symmetry; apply Z.ltb_ge; rewrite length_app; lia).
  replace (Z.of_nat (length (pre ++ post)) <? 4) with false
    by (symmetry; apply Z.ltb_ge; rewrite length_app; lia).
  rewrite !(lookup_app_l pre) by lia.
  destruct (stof (default EmptyString (pre !! 3%nat))) as [size|e];
    [|reflexivity].
  rewrite !drop_app_le by lia. rewrite !fold_left_app. cbn [fold_left].
  rewrite parseOption_focalmm. reflexivity.
Qed.

(** C7: whatever the command line, the configuration carries the focal
    length 1.0 and every pose solve of the run is given a camera matrix
    with fx = fy = 1.0; an argument [--focalmm=F] among the options is
    accepted and changes neither the configuration nor the run. *)
Theorem C7_focal_length_not_wired stof openVideo :
  (forall argv cfg,
     parseArgs stof argv = Returns cfg -> cameraFocalLengthMM cfg = 1%Q)
  /\ (forall argv o c m d,
        In (SolvePnP o c m d) (fst (main stof openVideo argv)) ->
        m !! (0, 0) = Some 1%Q /\ m !! (1, 1) = Some 1%Q)
  /\ (forall pre post F,
        (4 <= length pre)%nat ->
        parseArgs stof (pre ++ ("--focalmm=" +:+ F) :: post)
        = parseArgs stof (pre ++ post)
        /\ main stof openVideo (pre ++ ("--focalmm=" +:+ F) :: post)
           = main stof openVideo (pre ++ post)).
Proof.
  split; [intros argv cfg; apply parseArgs_focal|]. split.
  - intros argv o c m d. rewrite main_trace.
    destruct (parseArgs stof argv) as [cfg|e] eqn:Hparse; [|intros []].
    destruct (quit cfg); [intros [H|[]]; discriminate|].
    destruct (pipeline_solves openVideo cfg) as [frame Hsolves].
    intros H. apply Hsolves in H. destruct H as [-> _].
    rewrite <- (parseArgs_focal stof argv cfg Hparse).
    apply cameraMatrixOf_focal.
  - intros pre post F Hpre.
    pose proof (parseArgs_focalmm stof pre post F Hpre) as Heq.
    split; [exact Heq|]. unfold main, mainProg. rewrite Heq. reflexivity.
Qed.

Lemma C7_focal_length_not_wired_witness :
  let argv := ["app"; "video.mp4"; "ARUCO"; "50.0"] in
  let video := oneVideo "video.mp4" [markerFrame 640 480 7 squareCorners] in
  (4 <= length argv)%nat
  /\ parseArgs stof_decimal (argv ++ ["--focalmm=35"])
     = parseArgs stof_decimal (argv ++ [])
  /\ main stof_decimal video (argv ++ ["--focalmm=35"])
     = main stof_decimal video (argv ++ []).
Proof.
  intros argv video. split; [simpl; lia|].
  destruct (C7_focal_length_not_wired stof_decimal video) as (_ & _ & H).
  apply (H argv [] "35"). simpl. lia.
Defined.

(** C6 (as amended): when [-h] or [--help] is anywhere on the command
    line, the run writes the usage text to standard error and returns -1,
    whatever the other arguments are; nothing else happens. *)
Theorem C6_help_prints_usage stof openVideo argv :
  In "-h" argv \/ In "--help" argv ->
  main stof openVideo argv = ([Cerr usage_message], Return (-1)).
Proof.
  intros Hhelp.
  assert (Hex : existsb is_help argv = true).
  { apply existsb_exists. destruct Hhelp as [H|H].
    - exists "-h". split; [exact H|reflexivity].
    - exists "--help". split; [exact H|reflexivity]. }
  unfold main, mainProg, parseArgs. rewrite Hex. reflexivity.
Qed.

Lemma C6_help_prints_usage_witness :
  In "--help" ["app"; "--help"; "stray"]
  /\ main stof_decimal (oneVideo "video.mp4" []) ["app"; "--help"; "stray"]
     = ([Cerr usage_message], Return (-1)).
Proof.
  assert (H : In "--help" ["app"; "--help"; "stray"])
    by (simpl; right; left; reflexivity).
  split; [exact H|].
  apply (C6_help_prints_usage stof_decimal (oneVideo "video.mp4" [])
           ["app"; "--help"; "stray"]).
  right. exact H.
Defined.

(** C6, the claim as written fails: [app --help] returns -1, not 0, and
    the usage text goes to standard error. *)
Lemma C6_help_exit_code :
  let run := main stof_decimal (oneVideo "video.mp4" []) ["app"; "--help"] in
  snd run = Return (-1)
  /\ snd run <> Return 0
  /\ stderr (fst run) = [usage_message].
Proof.
  intros run. repeat split; try reflexivity. vm_compute. discriminate.
Qed.

(** C8 (as amended): with fewer than three positional arguments the run
    writes a message to standard error and returns -1 without opening
    any media.  With a marker size that [std::stof] rejects the run also
    stops before any media is opened, but by the exception, which nothing
    catches: [main] writes no message and returns no code. *)
Theorem C8_configuration_errors stof openVideo argv :
  ((length argv < 4)%nat ->
   main stof openVideo argv
   = ([Cerr (if existsb is_help argv then usage_message
             else not_enough_message)], Return (-1))
   /\ opens (fst (main stof openVideo argv)) = [])
  /\ (forall size e,
        existsb is_help argv = false ->
        argv !! 3%nat = Some size ->
        stof size = Throws e ->
        main stof openVideo argv = ([], Terminate e)
        /\ opens (fst (main stof openVideo argv)) = []).
Proof.
  split.
  - intros Hshort.
    assert (Heq : main stof openVideo argv
                  = ([Cerr (if existsb is_help argv then usage_message
                            else not_enough_message)], Return (-1))).
    { unfold main, mainProg, parseArgs.
      destruct (existsb is_help argv); [reflexivity|].
      replace (Z.of_nat (length argv) <? 4) with true
        by (symmetry; apply Z.ltb_lt; lia).
      reflexivity. }
    rewrite Heq. split; reflexivity.
  - intros size e Hhelp Hsize Hthrow.
    assert (Heq : main stof openVideo argv = ([], Terminate e)).
    { unfold main, mainProg, parseArgs. rewrite Hhelp.
      apply lookup_lt_Some in Hsize as Hlen.
      replace (Z.of_nat (length argv) <? 4) with false
        by (symmetry; apply Z.ltb_ge; lia).
      rewrite Hsize. simpl. rewrite Hthrow. reflexivity. }
    rewrite Heq. split; reflexivity.
Qed.

Lemma C8_configuration_errors_witness :
  ((length ["app"; "video.mp4"; "ARUCO"] < 4)%nat
   /\ main stof_decimal (oneVideo "video.mp4" [blankFrame 640 480])
        ["app"; "video.mp4"; "ARUCO"]
      = ([Cerr not_enough_message], Return (-1)))
  /\ (stof_decimal "fifty" = Throws invalid_argument
      /\ main stof_decimal (oneVideo "video.mp4" [blankFrame 640 480])
           ["app"; "video.mp4"; "ARUCO"; "fifty"]
         = ([], Terminate invalid_argument)).
Proof.
  split.
  - split; [simpl; lia|].
    destruct (C8_configuration_errors stof_decimal
                (oneVideo "video.mp4" [blankFrame 640 480])
                ["app"; "video.mp4"; "ARUCO"]) as [H _].
    apply H. simpl. lia.
  - split; [reflexivity|].
    destruct (C8_configuration_errors stof_decimal
                (oneVideo "video.mp4" [blankFrame 640 480])
                ["app"; "video.mp4"; "ARUCO"; "fifty"]) as [_ H].
    apply (H "fifty" invalid_argument); reflexivity.
Defined.

(** C8, the claim as written fails: [app video.mp4 ARUCO abc].  The
    marker size does not parse, and the run ends by the uncaught
    [invalid_argument]: it does not return -1 and [main] writes nothing
    to standard error. *)
Lemma C8_unparsable_size_terminates :
  let run := main stof_decimal (oneVideo "video.mp4" [blankFrame 640 480])
               ["app"; "video.mp4"; "ARUCO"; "abc"] in
  stof_decimal "abc" = Throws invalid_argument
  /\ snd run = Terminate invalid_argument
  /\ snd run <> Return (-1)
  /\ stderr (fst run) = [].
Proof.
  intros run. repeat split; try reflexivity. vm_compute. discriminate.
Qed.

(** C10: once [parseArgs] has got past the positional arguments, the
    print-empty-frames flag is set exactly when some argument after the
    third positional one and the text [--print-empty-frames] are prefixes
    one of the other, the exact spelling being one case among many; the
    test made for [-v] and [--verbose] accepts mutual prefixes in the same
    way. *)
Theorem C10_flag_by_mutual_prefix stof argv cfg :
  parseArgs stof argv = Returns cfg ->
  quit cfg = false ->
  (printEmptyFrames cfg = true
   <-> exists arg, In arg (drop 4 argv)
                   /\ mutual_prefix arg "--print-empty-frames")
  /\ (forall arg,
        startsWith arg "-v" || startsWith arg "--verbose" = true
        <-> mutual_prefix arg "-v" \/ mutual_prefix arg "--verbose").
Proof.
  intros Hparse Hquit. split.
  - destruct (parseArgs_cases stof argv)
      as [[_ H]|[(_ & _ & H)|(_ & _ & a1 & a2 & a3 & _ & _ & _ & H)]];
      rewrite H in Hparse.
    + injection Hparse as <-. discriminate.
    + injection Hparse as <-. discriminate.
    + destruct (stof a3) as [size|e]; [|discriminate].
      injection Hparse as <-. rewrite options_printEmptyFrames.
      cbn [printEmptyFrames withPositionals initialConfiguration orb].
      rewrite existsb_exists. split.
      * intros (arg & Hin & Hs). exists arg. split; [exact Hin|].
        apply startsWith_mutual_prefix. exact Hs.
      * intros (arg & Hin & Hm). exists arg. split; [exact Hin|].
        apply startsWith_mutual_prefix. exact Hm.
  - intros arg. rewrite orb_true_iff, !startsWith_mutual_prefix. tauto.
Qed.

Lemma C10_flag_by_mutual_prefix_witness :
  let argv := ["app"; "video.mp4"; "ARUCO"; "50.0"; "--p"] in
  exists cfg,
    parseArgs stof_decimal argv = Returns cfg
    /\ quit cfg = false
    /\ printEmptyFrames cfg = true.
Proof.
  intros argv.
  exists (withPrintEmptyFrames
            (withPositionals "video.mp4" "ARUCO" 50%Q initialConfiguration)).
  split; [reflexivity|]. split; [reflexivity|].
  apply (C10_flag_by_mutual_prefix stof_decimal argv); [reflexivity..|].
  exists "--p". split; [simpl; tauto|].
  left. exists "rint-empty-frames". reflexivity.
Defined.

(** ** Degenerate corners *)

(** [main] makes no test of its own on the corners of a marker: a marker
    whose four corners lie on one line is handed to the pose solve like
    any other, and the loop goes on to the next frame.  What the solve
    computes from such corners is decided inside OpenCV. *)
Example collinear_marker_is_solved :
  let cfg := configuration "video.mp4" "ARUCO" 50%Q 0 0 true in
  let video := [markerFrame 640 480 7 collinearCorners; blankFrame 640 480] in
  fst (pipeline (oneVideo "video.mp4" video) cfg)
  = [Open "video.mp4" true; Read true;
     SolvePnP (objPointsOf 50%Q) collinearCorners
       (cameraMatrixOf cfg emptyMat) cameraDistortionOf;
     Read true; Cout (emptyFrameLine 1); Read false; Release].
Proof. reflexivity. Qed.

(** * Further properties of the program *)

(** ** From the command line to the run *)

Lemma parseOption_configuration path name size first last flag arg :
  parseOption (configuration path name size first last flag) arg
  = configuration path name size first last (flag || asksEmptyFrames arg).
Proof.
  unfold parseOption, asksEmptyFrames.
  destruct (startsWith arg "-v" || startsWith arg "--verbose");
    destruct (startsWith arg "--print-empty-frames"); destruct flag;
    reflexivity.
Qed.

Lemma options_configuration args : forall path name size first last flag,
  fold_left parseOption args (configuration path name size first last flag)
  = configuration path name size first last
      (flag || existsb asksEmptyFrames args).
Proof.
  induction args as [|arg args IH]; intros path name size first last flag;
    simpl.
  - rewrite orb_false_r. reflexivity.
  - rewrite parseOption_configuration, IH, orb_assoc. reflexivity.
Qed.

(** A command line that passes every check of [parseArgs]. *)
Lemma parseArgs_ok stof argv path name text size :
  existsb is_help argv = false ->
  argv !! 1%nat = Some path ->
  argv !! 2%nat = Some name ->
  argv !! 3%nat = Some text ->
  stof text = Returns size ->
  parseArgs stof argv
  = Returns (configuration path name size 0 0
               (existsb asksEmptyFrames (drop 4 argv))).
Proof.
  intros Hhelp H1 H2 H3 Hsize. unfold parseArgs. rewrite Hhelp.
  apply lookup_lt_Some in H3 as Hlen.
  replace (Z.of_nat (length argv) <? 4) with false
    by (symmetry; apply Z.ltb_ge; lia).
  rewrite H1, H2, H3. simpl. rewrite Hsize.
  change (withPositionals path name size initialConfiguration)
    with (configuration path name size 0 0 false).
  rewrite options_configuration. reflexivity.
Qed.

Lemma main_of_pipeline stof openVideo argv cfg :
  parseArgs stof argv = Returns cfg ->
  quit cfg = false ->
  main stof openVideo argv
  = (fst (pipeline openVideo cfg), statusOf (snd (pipeline openVideo cfg))).
Proof.
  intros Hparse Hquit. unfold main, mainProg. rewrite Hparse, Hquit.
  destruct (pipeline openVideo cfg) as [tr [[]|t]]; reflexivity.
Qed.

(** The run from frame zero, whatever the length of the stream. *)
Lemma pipeline_from_zero openVideo cfg video size :
  openVideo (mediaFilepath cfg) = Some video ->
  markerSizeMM cfg = Some size ->
  startFrame cfg = 0 ->
  pipeline openVideo cfg
  = (let '(tr, r) :=
       frameLoop cfg (getDictFromName (dictionaryName cfg)) (objPointsOf size)
         (cameraMatrixOf cfg emptyMat) cameraDistortionOf 0 video in
     match r with
     | Next _ => (Open (mediaFilepath cfg) true :: tr ++ [Release],
                  Halt (Return 0))
     | Halt t => (Open (mediaFilepath cfg) true :: tr, Halt t)
     end).
Proof.
  intros Hopen Hsize Hstart. unfold pipeline. rewrite Hopen.
  assert (Hseek : seekStart cfg 0 video emptyMat = ([], Next (video, emptyMat))).
  { destruct video; simpl; rewrite Hstart; reflexivity. }
  cbn. rewrite Hseek. cbn. rewrite Hsize, Hstart.
  change (to_int 0) with 0.
  destruct (frameLoop cfg (getDictFromName (dictionaryName cfg))
              (objPointsOf size) (cameraMatrixOf cfg emptyMat)
              cameraDistortionOf 0 video) as [tr [[]|t]]; reflexivity.
Qed.

(** ** More on the dictionary resolver *)

(** X1: the resolver returns the codebook of enumerator zero exactly for
    the names outside the supported set, so no supported name shares its
    codebook with an unknown one; and it returns the original ArUco
    codebook exactly for DEFAULT and ARUCO. *)
Theorem getDictFromName_separates name :
  (getDictFromName name = getPredefinedDictionary DICT_4X4_50
   <-> ~ In name supported_names)
  /\ (getDictFromName name = getPredefinedDictionary DICT_ARUCO_ORIGINAL
      <-> name = "DEFAULT" \/ name = "ARUCO").
Proof.
  destruct (In_dec string_dec name supported_names) as [Hin|Hout].
  - assert (Hnz : getDictFromName name <> getPredefinedDictionary DICT_4X4_50).
    { simpl in Hin.
      destruct Hin as [<-|[<-|[<-|[<-|[<-|[<-|[]]]]]]]; vm_compute;
        discriminate. }
    split; [split; [intros H; destruct (Hnz H)|intros H; destruct (H Hin)]|].
    simpl in Hin.
    destruct Hin as [<-|[<-|[<-|[<-|[<-|[<-|[]]]]]]];
      (split; [intros H; try (vm_compute in H; discriminate); tauto
              |intros [H|H]; try discriminate; reflexivity]).
  - assert (Hz : getDictFromName name = getPredefinedDictionary DICT_4X4_50).
    { unfold getDictFromName. rewrite supported_at_other by exact Hout.
      reflexivity. }
    split; [split; [intros _; exact Hout|intros _; exact Hz]|].
    rewrite Hz. split; [discriminate|].
    intros [-> | ->]; exfalso; apply Hout; simpl; tauto.
Qed.

(** ** More on [startsWith] *)

Lemma mutual_prefix_sym s t : mutual_prefix s t <-> mutual_prefix t s.
Proof. unfold mutual_prefix. tauto. Qed.

Lemma startsWith_sym s t : startsWith s t = startsWith t s.
Proof.
  apply eq_true_iff_eq.
  rewrite !startsWith_mutual_prefix. apply mutual_prefix_sym.
Qed.

Lemma startsWith_refl s : startsWith s s = true.
Proof.
  apply startsWith_mutual_prefix. left. exists EmptyString.
  induction s as [|a s IH]; [reflexivity|].
  cbv [String.append]. fold String.append. f_equal. exact IH.
Qed.

(** X2: [startsWith] does not tell the text from the pattern: swapping
    its two arguments never changes the answer, every text starts with
    itself, and the empty text matches every pattern; it is not
    transitive, so it is no ordering of texts by prefix. *)
Theorem startsWith_symmetric_not_transitive :
  (forall s t, startsWith s t = startsWith t s)
  /\ (forall s, startsWith s s = true)
  /\ (forall s, startsWith EmptyString s = true
                /\ startsWith s EmptyString = true)
  /\ ~ (forall s t u, startsWith s t = true -> startsWith t u = true ->
                      startsWith s u = true).
Proof.
  split; [exact startsWith_sym|]. split; [exact startsWith_refl|].
  split; [intros s; split; [apply startsWith_nil_l|apply startsWith_nil_r]|].
  intros H. specialize (H "-v" EmptyString "--print-empty-frames").
  vm_compute in H. discriminate H; reflexivity.
Qed.

(** ** More on [parseArgs] *)

(** What a configuration returned without the quit flag holds. *)
Lemma parseArgs_returns stof argv cfg :
  parseArgs stof argv = Returns cfg ->
  quit cfg = false ->
  exists path name text size,
    argv !! 1%nat = Some path /\ argv !! 2%nat = Some name
    /\ argv !! 3%nat = Some text /\ stof text = Returns size
    /\ existsb is_help argv = false
    /\ cfg = configuration path name size 0 0
               (existsb asksEmptyFrames (drop 4 argv)).
Proof.
  intros Hparse Hquit.
  destruct (parseArgs_cases stof argv)
    as [[_ H]|[(_ & _ & H)|(Hhelp & _ & a1 & a2 & a3 & H1 & H2 & H3 & H)]].
  - rewrite H in Hparse. injection Hparse as <-. discriminate.
  - rewrite H in Hparse. injection Hparse as <-. discriminate.
  - destruct (stof a3) as [size|e] eqn:Hsize;
      [|rewrite H in Hparse; discriminate].
    exists a1, a2, a3, size. repeat (split; [assumption|]).
    rewrite (parseArgs_ok stof argv a1 a2 a3 size Hhelp H1 H2 H3 Hsize)
      in Hparse.
    injection Hparse as <-. reflexivity.
Qed.

(** X3: [parseArgs] returns a configuration without the quit flag
    exactly when no argument is a help switch and [std::stof] accepts
    the argument of index 3; that configuration holds the arguments of
    index 1 and 2 as the media path and the dictionary name and the
    parsed marker size, whatever options follow; its frame range is
    always 0 to 0 (from the first frame, no end bound), its focal length
    1.0, its message empty, and its flag tells whether some option passed
    the test of line 145. *)
Theorem parseArgs_success stof argv cfg :
  parseArgs stof argv = Returns cfg /\ quit cfg = false
  <-> exists path name text size,
        argv !! 1%nat = Some path /\ argv !! 2%nat = Some name
        /\ argv !! 3%nat = Some text /\ stof text = Returns size
        /\ existsb is_help argv = false
        /\ cfg = configuration path name size 0 0
                   (existsb asksEmptyFrames (drop 4 argv)).
Proof.
  split.
  - intros [Hparse Hquit]. apply parseArgs_returns; assumption.
  - intros (path & name & text & size & H1 & H2 & H3 & Hsize & Hhelp & ->).
    split; [|reflexivity].
    apply (parseArgs_ok stof argv path name text size); assumption.
Qed.

Lemma parseArgs_success_witness :
  parseArgs stof_decimal
    ["app"; "video.mp4"; "ARUCO"; "50.0"; "--print-empty-frames"]
  = Returns (configuration "video.mp4" "ARUCO" 50%Q 0 0 true).
Proof.
  apply (parseArgs_success stof_decimal
           ["app"; "video.mp4"; "ARUCO"; "50.0"; "--print-empty-frames"]
           (configuration "video.mp4" "ARUCO" 50%Q 0 0 true)).
  exists "video.mp4", "ARUCO", "50.0", 50%Q. repeat split; reflexivity.
Defined.

Lemma parseArgs_options stof pre opts :
  (4 <= length pre)%nat ->
  parseArgs stof (pre ++ opts)
  = if existsb is_help pre || existsb is_help opts
    then Returns (stopWith usage_message initialConfiguration)
    else match stof (default EmptyString (pre !! 3%nat)) with
         | Throws e => Throws e
         | Returns size =>
             Returns (configuration (default EmptyString (pre !! 1%nat))
                        (default EmptyString (pre !! 2%nat)) size 0 0
                        (existsb asksEmptyFrames (drop 4 pre)
                         || existsb asksEmptyFrames opts))
         end.
Proof.
  intros Hpre. unfold parseArgs. rewrite existsb_app.
  destruct (existsb is_help pre || existsb is_help opts); [reflexivity|].
  replace (Z.of_nat (length (pre ++ opts)) <? 4) with false
    by (symmetry; apply Z.ltb_ge; rewrite length_app; lia).
  rewrite !(lookup_app_l pre) by lia.
  destruct (stof (default EmptyString (pre !! 3%nat))) as [size|e];
    [|reflexivity].
  rewrite drop_app_le by lia.
  change (withPositionals ?p ?n size initialConfiguration)
    with (configuration p n size 0 0 false).
  rewrite options_configuration, existsb_app. reflexivity.
Qed.

(** X4: an option that is neither a help switch nor accepted by the test
    for [--print-empty-frames] is dropped without a word: the command
    line with it and the command line without it parse to the same
    result, whatever it is and wherever among the options it stands. *)
Theorem parseArgs_ignores_unknown_option stof pre post arg :
  (4 <= length pre)%nat ->
  is_help arg = false ->
  asksEmptyFrames arg = false ->
  parseArgs stof (pre ++ arg :: post) = parseArgs stof (pre ++ post).
Proof.
  intros Hpre Hhelp Hask. rewrite !parseArgs_options by exact Hpre.
  cbn [existsb]. rewrite Hhelp, Hask. reflexivity.
Qed.

Lemma parseArgs_ignores_unknown_option_witness :
  parseArgs stof_decimal
    (["app"; "video.mp4"; "ARUCO"; "50.0"]
     ++ "--distortion=0.1" :: ["--print-empty-frames"])
  = parseArgs stof_decimal
      (["app"; "video.mp4"; "ARUCO"; "50.0"] ++ ["--print-empty-frames"]).
Proof.
  apply (parseArgs_ignores_unknown_option stof_decimal
           ["app"; "video.mp4"; "ARUCO"; "50.0"] ["--print-empty-frames"]
           "--distortion=0.1"); [simpl; lia|reflexivity|reflexivity].
Defined.

Lemma existsb_Permutation {A} (f : A -> bool) (l l' : list A) :
  Permutation l l' -> existsb f l = existsb f l'.
Proof.
  induction 1 as [|x l l' _ IH|x y l|l l' l'' _ IH1 _ IH2]; simpl.
  - reflexivity.
  - rewrite IH. reflexivity.
  - destruct (f x), (f y); reflexivity.
  - congruence.
Qed.

(** X5: the options may come in any order: two
    command lines with the same four leading arguments and the same
    options up to order parse to the same result. *)
Theorem parseArgs_option_order stof pre opts opts' :
  (4 <= length pre)%nat ->
  Permutation opts opts' ->
  parseArgs stof (pre ++ opts) = parseArgs stof (pre ++ opts').
Proof.
  intros Hpre Hperm. rewrite !parseArgs_options by exact Hpre.
  rewrite (existsb_Permutation is_help opts opts' Hperm).
  rewrite (existsb_Permutation asksEmptyFrames opts opts' Hperm).
  reflexivity.
Qed.

Lemma parseArgs_option_order_witness :
  parseArgs stof_decimal
    (["app"; "video.mp4"; "ARUCO"; "50.0"] ++ ["-v"; "--print-empty-frames"])
  = parseArgs stof_decimal
      (["app"; "video.mp4"; "ARUCO"; "50.0"] ++ ["--print-empty-frames"; "-v"]).
Proof.
  apply (parseArgs_option_order stof_decimal
           ["app"; "video.mp4"; "ARUCO"; "50.0"]
           ["-v"; "--print-empty-frames"] ["--print-empty-frames"; "-v"]);
    [simpl; lia|apply perm_swap].
Defined.

(** ** What a run writes, reads and solves *)

Lemma stdout_In line tr : In line (stdout tr) <-> In (Cout line) tr.
Proof.
  unfold stdout. induction tr as [|e tr IH]; simpl; [tauto|].
  destruct e; simpl; rewrite IH; split; intros H;
    try (right; exact H); try (destruct H as [H|H]; [discriminate|exact H]).
  - destruct H as [->|H]; [left; reflexivity|right; exact H].
  - destruct H as [[= ->]|H]; [left; reflexivity|right; exact H].
Qed.

Lemma frameEvents_couts cfg dict o m d i frame line :
  In (Cout line) (frameEvents cfg dict o m d i frame) ->
  printEmptyFrames cfg = true /\ noMarkers dict frame = true
  /\ line = emptyFrameLine i.
Proof.
  intros H. apply stdout_In in H. rewrite stdout_frameEvents in H.
  destruct (noMarkers dict frame); [|destruct H].
  destruct (printEmptyFrames cfg); [|destruct H].
  destruct H as [<-|[]]. repeat split.
Qed.

(** Whatever the counter does, a line the loop writes is the record of a
    frame of the stream without markers, under the index of its
    position, and the flag is set. *)
Lemma frameLoop_couts cfg dict o m d video : forall i line,
  In (Cout line) (fst (frameLoop cfg dict o m d i video)) ->
  printEmptyFrames cfg = true
  /\ exists k frame,
       i <= k /\ video !! Z.to_nat (k - i) = Some frame
       /\ noMarkers dict frame = true /\ line = emptyFrameLine k.
Proof.
  induction video as [|frame rest IH]; intros i line.
  - rewrite frameLoop_nil.
    destruct ((to_uint i <? endFrame cfg) || (endFrame cfg =? 0)); simpl;
      [intros [H|[]]; discriminate|tauto].
  - rewrite frameLoop_cons.
    destruct ((to_uint i <? endFrame cfg) || (endFrame cfg =? 0)); simpl;
      [|tauto].
    assert (Hhere : In (Cout line) (frameEvents cfg dict o m d i frame) ->
                    printEmptyFrames cfg = true
                    /\ exists k f,
                         i <= k
                         /\ (frame :: rest) !! Z.to_nat (k - i) = Some f
                         /\ noMarkers dict f = true
                         /\ line = emptyFrameLine k).
    { intros H. apply frameEvents_couts in H. destruct H as (Hf & Hn & ->).
      split; [exact Hf|]. exists i, frame. rewrite Z.sub_diag.
      repeat split; [lia|exact Hn]. }
    destruct (i =? INT_MAX).
    + simpl. rewrite app_nil_r. intros [H|H]; [discriminate|]. auto.
    + specialize (IH (i + 1) line).
      destruct (frameLoop cfg dict o m d (i + 1) rest) as [tr r]. simpl in *.
      intros [H|H]; [discriminate|]. apply in_app_or in H.
      destruct H as [H|H]; [auto|].
      destruct (IH H) as (Hf & k & f & Hk & Hl & Hn & ->).
      split; [exact Hf|]. exists k, f. repeat split; [lia| |exact Hn].
      replace (Z.to_nat (k - i)) with (S (Z.to_nat (k - (i + 1)))) by lia.
      exact Hl.
Qed.

(** X6: whatever the command line and the video, a line on standard
    output is an empty-frame record [{"frame_id":k, detections:[]}]: its
    index [k] is the position in the stream of a frame in which the
    detector found nothing, and some option passed the test for
    [--print-empty-frames].  A record with detections is never written,
    and without such an option nothing is written at all. *)
Theorem main_stdout_lines stof openVideo argv line :
  In line (stdout (fst (main stof openVideo argv))) ->
  exists path name video k frame,
    argv !! 1%nat = Some path /\ argv !! 2%nat = Some name
    /\ openVideo path = Some video
    /\ 0 <= k /\ video !! Z.to_nat k = Some frame
    /\ noMarkers (getDictFromName name) frame = true
    /\ line = emptyFrameLine k
    /\ existsb asksEmptyFrames (drop 4 argv) = true.
Proof.
  intros Hline. apply stdout_In in Hline. rewrite main_trace in Hline.
  destruct (parseArgs stof argv) as [cfg|e] eqn:Hparse; [|destruct Hline].
  destruct (quit cfg) eqn:Hquit; [destruct Hline as [H|[]]; discriminate|].
  destruct (parseArgs_returns stof argv cfg Hparse Hquit)
    as (path & name & text & size & H1 & H2 & _ & _ & _ & ->).
  exists path, name.
  set (flag := existsb asksEmptyFrames (drop 4 argv)) in *.
  set (cfg := configuration path name size 0 0 flag) in *.
  destruct (openVideo path) as [video|] eqn:Hopen.
  2:{ unfold pipeline in Hline. simpl in Hline. rewrite Hopen in Hline.
      destruct Hline as [H|[H|[]]]; discriminate. }
  rewrite (pipeline_from_zero openVideo cfg video size Hopen eq_refl eq_refl)
    in Hline.
  pose proof (frameLoop_couts cfg (getDictFromName name) (objPointsOf size)
                (cameraMatrixOf cfg emptyMat) cameraDistortionOf video 0 line)
    as Hloop.
  change (dictionaryName cfg) with name in Hline.
  change (mediaFilepath cfg) with path in Hline.
  change (printEmptyFrames cfg) with flag in Hloop.
  destruct (frameLoop cfg (getDictFromName name) (objPointsOf size)
              (cameraMatrixOf cfg emptyMat) cameraDistortionOf 0 video)
    as [tr [[]|t]]; simpl in Hline, Hloop.
  - destruct Hline as [H|H]; [discriminate|]. apply in_app_or in H.
    destruct H as [H|[H|[]]]; [|discriminate].
    destruct (Hloop H) as (Hf & k & frame & Hk & Hl & Hn & ->).
    rewrite Z.sub_0_r in Hl. exists video, k, frame. repeat split; assumption.
  - destruct Hline as [H|H]; [discriminate|].
    destruct (Hloop H) as (Hf & k & frame & Hk & Hl & Hn & ->).
    rewrite Z.sub_0_r in Hl. exists video, k, frame. repeat split; assumption.
Qed.

Lemma main_stdout_lines_witness :
  let run := main stof_decimal
               (oneVideo "video.mp4"
                  [markerFrame 640 480 7 squareCorners; blankFrame 640 480])
               ["app"; "video.mp4"; "ARUCO"; "50.0"; "--print-empty-frames"] in
  In (emptyFrameLine 1) (stdout (fst run))
  /\ exists k, 0 <= k /\ emptyFrameLine 1 = emptyFrameLine k.
Proof.
  intros run.
  assert (H : In (emptyFrameLine 1) (stdout (fst run)))
    by (left; reflexivity).
  split; [exact H|].
  destruct (main_stdout_lines _ _ _ _ H)
    as (path & name & video & k & frame & _ & _ & _ & Hk & _ & _ & Hline & _).
  exists k. split; assumption.
Defined.

Lemma blankIndices_In dict video : forall i k,
  In k (blankIndices dict i video)
  <-> i <= k /\ exists frame, video !! Z.to_nat (k - i) = Some frame
                              /\ noMarkers dict frame = true.
Proof.
  induction video as [|f rest IH]; intros i k; simpl.
  - split; [tauto|]. intros (_ & frame & H & _). discriminate.
  - rewrite in_app_iff, IH. split.
    + intros [H|(Hk & frame & Hl & Hn)].
      * destruct (noMarkers dict f) eqn:Hf; [|destruct H].
        destruct H as [<-|[]]. split; [lia|]. exists f.
        rewrite Z.sub_diag. split; [reflexivity|exact Hf].
      * split; [lia|]. exists frame. split; [|exact Hn].
        replace (Z.to_nat (k - i)) with (S (Z.to_nat (k - (i + 1)))) by lia.
        exact Hl.
    + intros (Hk & frame & Hl & Hn).
      destruct (Z.eq_dec k i) as [->|Hne].
      * left. rewrite Z.sub_diag in Hl. injection Hl as ->.
        rewrite Hn. left. reflexivity.
      * right. split; [lia|]. exists frame. split; [|exact Hn].
        replace (Z.to_nat (k - i)) with (S (Z.to_nat (k - (i + 1)))) in Hl
          by lia.
        exact Hl.
Qed.

Lemma blankIndices_sorted dict video : forall i,
  StronglySorted Z.lt (blankIndices dict i video).
Proof.
  induction video as [|f rest IH]; intros i; simpl; [constructor|].
  destruct (noMarkers dict f); simpl; [|apply IH].
  constructor; [apply IH|].
  apply List.Forall_forall. intros k Hk. apply blankIndices_In in Hk. lia.
Qed.

Lemma processed_stdout_unbounded cfg dict o m d video : forall i,
  endFrame cfg = 0 ->
  flat_map (fun kf => stdout (frameEvents cfg dict o m d (fst kf) (snd kf)))
    (processedFrames cfg i video)
  = if printEmptyFrames cfg then map emptyFrameLine (blankIndices dict i video)
    else [].
Proof.
  intros i Hend. revert i.
  induction video as [|f rest IH]; intros i; simpl.
  - destruct (printEmptyFrames cfg); reflexivity.
  - rewrite Hend, orb_true_r. simpl. rewrite IH, stdout_frameEvents.
    destruct (noMarkers dict f), (printEmptyFrames cfg); reflexivity.
Qed.

(** The run of a command line that passes [parseArgs], on a video that
    opens and is short enough for the counter. *)
Lemma main_run stof openVideo argv path name text size video :
  existsb is_help argv = false ->
  argv !! 1%nat = Some path ->
  argv !! 2%nat = Some name ->
  argv !! 3%nat = Some text ->
  stof text = Returns size ->
  openVideo path = Some video ->
  Z.of_nat (length video) <= INT_MAX ->
  let cfg := configuration path name size 0 0
               (existsb asksEmptyFrames (drop 4 argv)) in
  main stof openVideo argv
  = (Open path true
       :: fst (frameLoop cfg (getDictFromName name) (objPointsOf size)
                 (cameraMatrixOf cfg emptyMat) cameraDistortionOf 0 video)
       ++ [Release],
     Return 0).
Proof.
  intros Hhelp H1 H2 H3 Hsize Hopen Hlen cfg.
  rewrite (main_of_pipeline stof openVideo argv cfg
             (parseArgs_ok stof argv path name text size Hhelp H1 H2 H3 Hsize)
             eq_refl).
  rewrite (pipeline_from_zero openVideo cfg video size Hopen eq_refl eq_refl).
  destruct (frameLoop_stdout cfg (getDictFromName name) (objPointsOf size)
              (cameraMatrixOf cfg emptyMat) cameraDistortionOf video 0)
    as [Hnext _]; [lia|].
  change (dictionaryName cfg) with name.
  change (mediaFilepath cfg) with path.
  destruct (frameLoop cfg (getDictFromName name) (objPointsOf size)
              (cameraMatrixOf cfg emptyMat) cameraDistortionOf 0 video)
    as [tr r].
  simpl in Hnext. subst r. reflexivity.
Qed.

(** X7: for a command line that passes [parseArgs] and a video that
    opens, standard output is, when an option asked for empty frames, one
    record for each frame without markers and no other line, in the
    order of the frames and under their positions in the stream, which
    increase strictly; and it is empty when no option asked. *)
Theorem main_stdout_exact stof openVideo argv path name text size video :
  existsb is_help argv = false ->
  argv !! 1%nat = Some path ->
  argv !! 2%nat = Some name ->
  argv !! 3%nat = Some text ->
  stof text = Returns size ->
  openVideo path = Some video ->
  Z.of_nat (length video) <= INT_MAX ->
  let dict := getDictFromName name in
  stdout (fst (main stof openVideo argv))
  = (if existsb asksEmptyFrames (drop 4 argv)
     then map emptyFrameLine (blankIndices dict 0 video) else [])
  /\ StronglySorted Z.lt (blankIndices dict 0 video)
  /\ (forall k, In k (blankIndices dict 0 video)
                <-> 0 <= k /\ exists frame, video !! Z.to_nat k = Some frame
                                            /\ noMarkers dict frame = true).
Proof.
  intros Hhelp H1 H2 H3 Hsize Hopen Hlen dict.
  split; [|split; [apply blankIndices_sorted|]].
  - rewrite (main_run stof openVideo argv path name text size video)
      by assumption.
    cbn [fst].
    change (Open path true :: ?l) with ([Open path true] ++ l)%list.
    rewrite !stdout_app.
    change (stdout [Open path true]) with (@nil string).
    change (stdout [Release]) with (@nil string).
    rewrite app_nil_r, app_nil_l.
    set (cfg := configuration path name size 0 0 _).
    fold dict.
    destruct (frameLoop_stdout cfg dict (objPointsOf size)
                (cameraMatrixOf cfg emptyMat) cameraDistortionOf video 0)
      as [_ ->]; [lia|].
    apply (processed_stdout_unbounded cfg dict). reflexivity.
  - intros k. rewrite blankIndices_In, Z.sub_0_r. reflexivity.
Qed.

Lemma main_stdout_exact_witness :
  stdout (fst (main stof_decimal
                 (oneVideo "video.mp4"
                    [blankFrame 640 480; markerFrame 640 480 7 squareCorners;
                     blankFrame 640 480])
                 ["app"; "video.mp4"; "ARUCO"; "50.0"; "--print-empty"]))
  = [emptyFrameLine 0; emptyFrameLine 2].
Proof.
  destruct (main_stdout_exact stof_decimal
              (oneVideo "video.mp4"
                 [blankFrame 640 480; markerFrame 640 480 7 squareCorners;
                  blankFrame 640 480])
              ["app"; "video.mp4"; "ARUCO"; "50.0"; "--print-empty"]
              "video.mp4" "ARUCO" "50.0" 50%Q
              [blankFrame 640 480; markerFrame 640 480 7 squareCorners;
               blankFrame 640 480]
              eq_refl eq_refl eq_refl eq_refl eq_refl eq_refl)
    as [H _]; [vm_compute; discriminate|].
  exact H.
Defined.

(** ** How a run ends *)

Lemma pipeline_unopenable openVideo cfg :
  openVideo (mediaFilepath cfg) = None ->
  pipeline openVideo cfg
  = ([Open (mediaFilepath cfg) false;
      Cerr ("Failed to open video stream " +:+ mediaFilepath cfg)],
     Halt (Return (-1))).
Proof. intros H. unfold pipeline. rewrite H. reflexivity. Qed.

Lemma main_unopenable_run stof openVideo argv path name text size :
  existsb is_help argv = false ->
  argv !! 1%nat = Some path ->
  argv !! 2%nat = Some name ->
  argv !! 3%nat = Some text ->
  stof text = Returns size ->
  openVideo path = None ->
  main stof openVideo argv
  = ([Open path false; Cerr ("Failed to open video stream " +:+ path)],
     Return (-1)).
Proof.
  intros Hhelp H1 H2 H3 Hsize Hopen.
  set (cfg := configuration path name size 0 0
                (existsb asksEmptyFrames (drop 4 argv))).
  rewrite (main_of_pipeline stof openVideo argv cfg
             (parseArgs_ok stof argv path name text size Hhelp H1 H2 H3 Hsize)
             eq_refl).
  rewrite (pipeline_unopenable openVideo cfg Hopen). reflexivity.
Qed.

(** X8: when the command line passes [parseArgs] and the media path
    cannot be opened, the run consists of the failed opening and one
    line on standard error that names the path, and returns -1: no frame
    is read, nothing is written to standard output, and the dictionary
    name is never looked at, so an unknown one goes unnoticed. *)
Theorem main_unopenable_media stof openVideo argv path text size :
  existsb is_help argv = false ->
  argv !! 1%nat = Some path ->
  argv !! 3%nat = Some text ->
  stof text = Returns size ->
  openVideo path = None ->
  main stof openVideo argv
  = ([Open path false; Cerr ("Failed to open video stream " +:+ path)],
     Return (-1)).
Proof.
  intros Hhelp H1 H3 Hsize Hopen.
  assert (Hlen : (3 < length argv)%nat) by (eapply lookup_lt_Some; eassumption).
  destruct (argv !! 2%nat) as [name|] eqn:H2.
  2:{ apply lookup_ge_None in H2. lia. }
  apply (main_unopenable_run stof openVideo argv path name text size);
    assumption.
Qed.

Lemma main_unopenable_media_witness :
  main stof_decimal (oneVideo "video.mp4" [blankFrame 640 480])
    ["app"; "nope.mp4"; "BOGUS"; "50.0"; "--print-empty-frames"]
  = ([Open "nope.mp4" false; Cerr "Failed to open video stream nope.mp4"],
     Return (-1)).
Proof.
  apply (main_unopenable_media stof_decimal
           (oneVideo "video.mp4" [blankFrame 640 480])
           ["app"; "nope.mp4"; "BOGUS"; "50.0"; "--print-empty-frames"]
           "nope.mp4" "50.0" 50%Q); reflexivity.
Defined.

(** X9: the way [main] ends, for every command line, as long as no video
    holds more frames than an [int] can count.  It returns -1 for a help
    switch, for fewer than four arguments and for media that do not
    open; it ends by the exception when [std::stof] throws on the third
    argument; in every other case it returns 0, whatever the dictionary
    name, the options and the content of the video.  Its behaviour is
    never undefined. *)
Theorem main_exit_status stof openVideo argv :
  (forall path video,
     openVideo path = Some video -> Z.of_nat (length video) <= INT_MAX) ->
  snd (main stof openVideo argv)
  = if existsb is_help argv || (Z.of_nat (length argv) <? 4) then Return (-1)
    else match stof (default EmptyString (argv !! 3%nat)) with
         | Throws e => Terminate e
         | Returns _ =>
             match openVideo (default EmptyString (argv !! 1%nat)) with
             | None => Return (-1)
             | Some _ => Return 0
             end
         end.
Proof.
  intros Hshort.
  destruct (parseArgs_cases stof argv)
    as [[Hhelp H]|[(Hhelp & Hlen & H)
                  |(Hhelp & Hlen & a1 & a2 & a3 & H1 & H2 & H3 & H)]].
  - rewrite Hhelp. unfold main, mainProg. rewrite H. reflexivity.
  - rewrite Hhelp.
    replace (Z.of_nat (length argv) <? 4) with true
      by (symmetry; apply Z.ltb_lt; lia).
    unfold main, mainProg. rewrite H. reflexivity.
  - rewrite Hhelp.
    replace (Z.of_nat (length argv) <? 4) with false
      by (symmetry; apply Z.ltb_ge; lia).
    rewrite H1, H3. simpl.
    destruct (stof a3) as [size|e] eqn:Hsize.
    + destruct (openVideo a1) as [video|] eqn:Hopen.
      * rewrite (main_run stof openVideo argv a1 a2 a3 size video)
          by eauto.
        reflexivity.
      * rewrite (main_unopenable_run stof openVideo argv a1 a2 a3 size)
          by assumption.
        reflexivity.
    + unfold main, mainProg. rewrite H. reflexivity.
Qed.

Lemma main_exit_status_witness :
  snd (main stof_decimal (oneVideo "video.mp4" [blankFrame 640 480])
         ["app"; "video.mp4"; "BOGUS"; "50.0"])
  = Return 0.
Proof.
  rewrite (main_exit_status stof_decimal
             (oneVideo "video.mp4" [blankFrame 640 480])
             ["app"; "video.mp4"; "BOGUS"; "50.0"]).
  - reflexivity.
  - intros path video. unfold oneVideo.
    destruct (String.eqb path "video.mp4"); [|discriminate].
    intros [= <-]. vm_compute. discriminate.
Defined.

(** ** The reads of a run and the end-frame bound *)

Lemma reads_app (tr1 tr2 : list Event) :
  reads (tr1 ++ tr2) = (reads tr1 ++ reads tr2)%list.
Proof. unfold reads. apply omap_app. Qed.

Lemma reads_replicate n b : reads (replicate n (Read b)) = replicate n b.
Proof. induction n as [|n IH]; [reflexivity|]. simpl. f_equal. exact IH. Qed.

Lemma reads_frameEvents cfg dict o m d i frame :
  reads (frameEvents cfg dict o m d i frame) = [].
Proof.
  destruct (noMarkers dict frame) eqn:Hn.
  - rewrite frameEvents_noMarkers by exact Hn.
    destruct (printEmptyFrames cfg); reflexivity.
  - rewrite frameEvents_markers by exact Hn.
    induction (fst (detectMarkers frame dict)) as [|c cs IH];
      [reflexivity|exact IH].
Qed.

Lemma frameLoop_reads cfg dict o m d video : forall i,
  0 <= i -> i + Z.of_nat (length video) <= INT_MAX ->
  reads (fst (frameLoop cfg dict o m d i video))
  = if endFrame cfg =? 0 then replicate (length video) true ++ [false]
    else replicate
           (Z.to_nat (Z.min (Z.of_nat (length video)) (endFrame cfg - i))) true
         ++ (if i + Z.of_nat (length video) <? endFrame cfg
             then [false] else []).
Proof.
  induction video as [|f rest IH]; intros i Hi Hmax.
  - rewrite frameLoop_nil, to_uint_small by (simpl in Hmax; lia).
    simpl length. rewrite Z.add_0_r.
    destruct (endFrame cfg =? 0); [rewrite orb_true_r; reflexivity|].
    rewrite orb_false_r.
    replace (Z.to_nat (Z.min (Z.of_nat 0) (endFrame cfg - i))) with 0%nat
      by lia.
    destruct (i <? endFrame cfg); reflexivity.
  - rewrite frameLoop_cons, to_uint_small by (simpl in Hmax; lia).
    simpl length in *.
    destruct (i =? INT_MAX) eqn:Hov; [apply Z.eqb_eq in Hov; lia|].
    specialize (IH (i + 1)).
    destruct (frameLoop cfg dict o m d (i + 1) rest) as [tr r].
    cbn [fst] in IH.
    destruct (endFrame cfg =? 0) eqn:He.
    + rewrite orb_true_r. cbv beta iota zeta. cbn [fst].
      change (Read true :: ?l) with ([Read true] ++ l)%list.
      rewrite !reads_app, reads_frameEvents, IH by lia. reflexivity.
    + rewrite orb_false_r. destruct (i <? endFrame cfg) eqn:Hlt;
        cbv beta iota zeta; cbn [fst].
      * apply Z.ltb_lt in Hlt.
        change (Read true :: ?l) with ([Read true] ++ l)%list.
        rewrite !reads_app, reads_frameEvents, IH by lia.
        replace (Z.to_nat (Z.min (Z.of_nat (S (length rest)))
                             (endFrame cfg - i)))
          with (S (Z.to_nat (Z.min (Z.of_nat (length rest))
                               (endFrame cfg - (i + 1))))) by lia.
        replace (i + Z.of_nat (S (length rest)))
          with (i + 1 + Z.of_nat (length rest)) by lia.
        reflexivity.
      * apply Z.ltb_ge in Hlt.
        replace (Z.to_nat (Z.min (Z.of_nat (S (length rest)))
                             (endFrame cfg - i))) with 0%nat by lia.
        replace (i + Z.of_nat (S (length rest)) <? endFrame cfg) with false
          by (symmetry; apply Z.ltb_ge; lia).
        reflexivity.
Qed.

(** X10: the reads of a run whose video opens and holds the start
    frame.  Without an end bound (end frame 0) every frame is read once
    and one more read finds the end of the stream.  With an end bound
    [e] the run reads the frames before [max s e] and stops there
    without another read; only when the stream is shorter than [e] does
    it read to the end and meet the failing read.  An end bound at or
    below the start frame leaves the skipped frames as the only reads. *)
Theorem pipeline_reads openVideo cfg video size :
  openVideo (mediaFilepath cfg) = Some video ->
  markerSizeMM cfg = Some size ->
  0 <= startFrame cfg <= Z.of_nat (length video) ->
  Z.of_nat (length video) <= INT_MAX ->
  reads (fst (pipeline openVideo cfg))
  = if endFrame cfg =? 0 then replicate (length video) true ++ [false]
    else replicate
           (Z.to_nat (Z.min (Z.of_nat (length video))
                        (Z.max (startFrame cfg) (endFrame cfg)))) true
         ++ (if Z.of_nat (length video) <? endFrame cfg then [false] else []).
Proof.
  intros Hopen Hsize Hs Hlen.
  destruct (pipeline_run openVideo cfg video size Hopen Hsize Hs Hlen)
    as (frame0 & -> & _).
  cbn [fst].
  change (Open (mediaFilepath cfg) true :: ?l)
    with ([Open (mediaFilepath cfg) true] ++ l)%list.
  rewrite !reads_app, reads_replicate.
  change (reads [Open (mediaFilepath cfg) true]) with (@nil bool).
  change (reads [Release]) with (@nil bool).
  rewrite app_nil_r, app_nil_l.
  rewrite frameLoop_reads by (rewrite ?length_drop; lia).
  rewrite length_drop.
  replace (Z.of_nat (length video - Z.to_nat (startFrame cfg)))
    with (Z.of_nat (length video) - startFrame cfg) by lia.
  destruct (endFrame cfg =? 0).
  - rewrite app_assoc, <- replicate_add. do 2 f_equal. lia.
  - rewrite app_assoc, <- replicate_add.
    replace (startFrame cfg + (Z.of_nat (length video) - startFrame cfg))
      with (Z.of_nat (length video)) by lia.
    do 2 f_equal. lia.
Qed.

Lemma pipeline_reads_witness :
  let video := [blankFrame 640 480; blankFrame 640 480; blankFrame 640 480;
                blankFrame 640 480; blankFrame 640 480] in
  reads (fst (pipeline (oneVideo "video.mp4" video)
                (configuration "video.mp4" "ARUCO" 50%Q 1 3 true)))
  = [true; true; true].
Proof.
  intros video.
  rewrite (pipeline_reads (oneVideo "video.mp4" video)
             (configuration "video.mp4" "ARUCO" 50%Q 1 3 true) video 50%Q
             eq_refl eq_refl).
  - reflexivity.
  - vm_compute. split; discriminate.
  - vm_compute. discriminate.
Defined.

(** ** The pose solves of a run *)

Lemma solved_app (tr1 tr2 : list Event) :
  solved (tr1 ++ tr2) = (solved tr1 ++ solved tr2)%list.
Proof. unfold solved. apply omap_app. Qed.

Lemma solved_frameEvents cfg dict o m d i frame :
  solved (frameEvents cfg dict o m d i frame) = cornersToSolve dict frame.
Proof.
  unfold cornersToSolve. destruct (noMarkers dict frame) eqn:Hn.
  - rewrite frameEvents_noMarkers by exact Hn.
    destruct (printEmptyFrames cfg); reflexivity.
  - rewrite frameEvents_markers by exact Hn.
    induction (fst (detectMarkers frame dict)) as [|c cs IH];
      [reflexivity|]. simpl. f_equal. exact IH.
Qed.

Lemma frameLoop_solved_unbounded cfg dict o m d video : forall i,
  endFrame cfg = 0 ->
  i + Z.of_nat (length video) <= INT_MAX ->
  solved (fst (frameLoop cfg dict o m d i video))
  = flat_map (cornersToSolve dict) video.
Proof.
  intros i Hend. revert i.
  induction video as [|f rest IH]; intros i Hmax.
  - rewrite frameLoop_nil, Hend, orb_true_r. reflexivity.
  - rewrite frameLoop_cons, Hend, orb_true_r. simpl length in Hmax.
    destruct (i =? INT_MAX) eqn:Hov; [apply Z.eqb_eq in Hov; lia|].
    specialize (IH (i + 1)).
    destruct (frameLoop cfg dict o m d (i + 1) rest) as [tr r].
    cbn [fst] in IH. cbv beta iota zeta. cbn [fst].
    change (Read true :: ?l) with ([Read true] ++ l)%list.
    rewrite !solved_app, solved_frameEvents, IH by lia. reflexivity.
Qed.

(** X11: for a command line that passes [parseArgs] and a video that
    opens, the pose solve is called once for each corner list of each
    frame whose identifier vector is not empty, in the order of the
    frames and, within a frame, of the detector's corner vector; frames
    with an empty identifier vector cause no call. *)
Theorem main_solves_every_marker stof openVideo argv path name text size video :
  existsb is_help argv = false ->
  argv !! 1%nat = Some path ->
  argv !! 2%nat = Some name ->
  argv !! 3%nat = Some text ->
  stof text = Returns size ->
  openVideo path = Some video ->
  Z.of_nat (length video) <= INT_MAX ->
  solved (fst (main stof openVideo argv))
  = flat_map (cornersToSolve (getDictFromName name)) video.
Proof.
  intros Hhelp H1 H2 H3 Hsize Hopen Hlen.
  rewrite (main_run stof openVideo argv path name text size video)
    by assumption.
  cbn [fst].
  change (Open path true :: ?l) with ([Open path true] ++ l)%list.
  rewrite !solved_app.
  change (solved [Open path true]) with (@nil (list Point2f)).
  change (solved [Release]) with (@nil (list Point2f)).
  rewrite app_nil_r, app_nil_l.
  apply frameLoop_solved_unbounded; [reflexivity|lia].
Qed.

Lemma main_solves_every_marker_witness :
  solved (fst (main stof_decimal
                 (oneVideo "video.mp4"
                    [markerFrame 640 480 7 squareCorners; blankFrame 640 480;
                     markerFrame 640 480 9 collinearCorners])
                 ["app"; "video.mp4"; "ARUCO"; "50.0"]))
  = [squareCorners; collinearCorners].
Proof.
  rewrite (main_solves_every_marker stof_decimal
             (oneVideo "video.mp4"
                [markerFrame 640 480 7 squareCorners; blankFrame 640 480;
                 markerFrame 640 480 9 collinearCorners])
             ["app"; "video.mp4"; "ARUCO"; "50.0"]
             "video.mp4" "ARUCO" "50.0" 50%Q
             [markerFrame 640 480 7 squareCorners; blankFrame 640 480;
              markerFrame 640 480 9 collinearCorners]
             eq_refl eq_refl eq_refl eq_refl eq_refl eq_refl).
  - reflexivity.
  - vm_compute. discriminate.
Defined.

Lemma mainCameraMatrix_identity r c :
  0 <= r < 3 -> 0 <= c < 3 ->
  exists v, mainCameraMatrix !! (r, c) = Some v
            /\ (v == if r =? c then 1 else 0)%Q.
Proof.
  intros Hr Hc.
  assert (Hr' : r = 0 \/ r = 1 \/ r = 2) by lia.
  assert (Hc' : c = 0 \/ c = 1 \/ c = 2) by lia.
  destruct Hr' as [-> | [-> | ->]]; destruct Hc' as [-> | [-> | ->]];
    eexists; (split; [reflexivity|reflexivity]).
Qed.

(** X12: whatever the command line and the video, every pose solve of a
    run is given the same inputs beside the corners: the object points
    of the parsed marker size, four zero distortion coefficients, and one
    fixed camera matrix whose nine entries are those of the identity
    matrix, so focal lengths 1.0 and principal point (0, 0) whatever the
    size of the frames. *)
Theorem main_solve_inputs stof openVideo argv o c m d :
  In (SolvePnP o c m d) (fst (main stof openVideo argv)) ->
  (exists text size,
     argv !! 3%nat = Some text /\ stof text = Returns size
     /\ o = objPointsOf size)
  /\ d = cameraDistortionOf
  /\ m = mainCameraMatrix
  /\ (forall row col, 0 <= row < 3 -> 0 <= col < 3 ->
        exists v, m !! (row, col) = Some v
                  /\ (v == if row =? col then 1 else 0)%Q).
Proof.
  intros Hin. rewrite main_trace in Hin.
  destruct (parseArgs stof argv) as [cfg|e] eqn:Hparse; [|destruct Hin].
  destruct (quit cfg) eqn:Hquit; [destruct Hin as [H|[]]; discriminate|].
  destruct (parseArgs_returns stof argv cfg Hparse Hquit)
    as (path & name & text & size & H1 & H2 & H3 & Hsize & _ & ->).
  set (cfg := configuration path name size 0 0 _) in *.
  destruct (openVideo path) as [video|] eqn:Hopen.
  2:{ rewrite (pipeline_unopenable openVideo cfg Hopen) in Hin.
      destruct Hin as [H|[H|[]]]; discriminate. }
  rewrite (pipeline_from_zero openVideo cfg video size Hopen eq_refl eq_refl)
    in Hin.
  pose proof (frameLoop_solves cfg (getDictFromName (dictionaryName cfg))
                (objPointsOf size) (cameraMatrixOf cfg emptyMat)
                cameraDistortionOf video 0 o c m d) as Hloop.
  assert (Hall : o = objPointsOf size /\ m = cameraMatrixOf cfg emptyMat
                 /\ d = cameraDistortionOf).
  { destruct (frameLoop cfg (getDictFromName (dictionaryName cfg))
                (objPointsOf size) (cameraMatrixOf cfg emptyMat)
                cameraDistortionOf 0 video) as [tr [[]|t]];
      cbn [fst] in Hin, Hloop; apply Hloop.
    - destruct Hin as [H|H]; [discriminate|]. apply in_app_or in H.
      destruct H as [H|[H|[]]]; [exact H|discriminate].
    - destruct Hin as [H|H]; [discriminate|exact H]. }
  destruct Hall as (-> & -> & ->).
  split; [exists text, size; repeat split; assumption|].
  split; [reflexivity|]. split; [reflexivity|].
  apply mainCameraMatrix_identity.
Qed.

Lemma main_solve_inputs_witness :
  exists o m d,
    In (SolvePnP o squareCorners m d)
      (fst (main stof_decimal
              (oneVideo "video.mp4" [markerFrame 1920 1080 7 squareCorners])
              ["app"; "video.mp4"; "ARUCO"; "50.0"]))
    /\ m = mainCameraMatrix.
Proof.
  exists (objPointsOf 50%Q), mainCameraMatrix, cameraDistortionOf.
  assert (H : In (SolvePnP (objPointsOf 50%Q) squareCorners mainCameraMatrix
                    cameraDistortionOf)
                (fst (main stof_decimal
                        (oneVideo "video.mp4"
                           [markerFrame 1920 1080 7 squareCorners])
                        ["app"; "video.mp4"; "ARUCO"; "50.0"])))
    by (right; right; left; reflexivity).
  split; [exact H|].
  destruct (main_solve_inputs _ _ _ _ _ _ _ H) as (_ & _ & Hm & _).
  exact Hm.
Defined.

(** ** What [printJSONL] writes *)

Lemma append_assoc (s t u : string) : (s +:+ t) +:+ u = s +:+ (t +:+ u).
Proof.
  induction s as [|a s IH]; [reflexivity|].
  cbv [String.append]. fold String.append. f_equal. exact IH.
Qed.

Lemma append_nil_r (s : string) : s +:+ EmptyString = s.
Proof.
  induction s as [|a s IH]; [reflexivity|].
  cbv [String.append]. fold String.append. f_equal. exact IH.
Qed.

Lemma append_cancel_l (s t u : string) : s +:+ t = s +:+ u -> t = u.
Proof.
  induction s as [|a s IH]; [intros H; exact H|].
  cbv [String.append]. fold String.append. intros [= H]. apply IH. exact H.
Qed.

Lemma markerObject_append id rest :
  "{" +:+ dq +:+ "marker_id" +:+ dq +:+ ":" +:+ pretty id +:+ "," +:+ "}"
  +:+ rest
  = markerObject id +:+ rest.
Proof.
  unfold markerObject, dq. cbv [String.append]. fold String.append.
  do 13 f_equal. rewrite append_assoc. reflexivity.
Qed.

Lemma printJSONL_detections_concat markerIds :
  printJSONL_detections markerIds
  = String.concat "," (map markerObject markerIds).
Proof.
  induction markerIds as [|id rest IH]; [reflexivity|].
  cbn [printJSONL_detections map]. rewrite markerObject_append, IH.
  destruct rest as [|id' rest']; [apply append_nil_r|reflexivity].
Qed.

(** X14: [printJSONL] writes one line: the frame index, then one object
    for each identifier, the objects separated by commas with none
    after the last.  An object holds the identifier alone, followed by a
    comma before its closing brace; the corner, translation and rotation
    vectors passed to the function leave no mark on the line. *)
Theorem printJSONL_line frame markerIds markerCorners translations rotations :
  printJSONL frame markerIds markerCorners translations rotations
  = ([Cout ("{" +:+ dq +:+ "frame_id" +:+ dq +:+ ":" +:+ pretty frame +:+ ","
            +:+ dq +:+ "detections" +:+ dq +:+ ":["
            +:+ String.concat "," (map markerObject markerIds) +:+ "]}")],
     Next tt).
Proof.
  unfold printJSONL, emit. rewrite printJSONL_detections_concat. reflexivity.
Qed.

(** X15: the two writers of the program disagree on the form of a record
    without detections: for every frame index, the line [main] writes for
    an empty frame (a space after the comma, the key [detections] without
    quotes) differs from the line [printJSONL] writes for an empty
    identifier vector. *)
Theorem emptyFrameLine_differs_from_printJSONL i corners translations rotations :
  fst (printJSONL i [] corners translations rotations)
  <> [Cout (emptyFrameLine i)].
Proof.
  unfold printJSONL, emit, emptyFrameLine, dq. cbn [fst].
  intros [= H]. cbv [String.append] in H. fold String.append in H.
  apply append_cancel_l in H. discriminate H.
Qed.

(** ** Records and frames *)

Lemma append_length (s t : string) :
  String.length (s +:+ t) = (String.length s + String.length t)%nat.
Proof.
  induction s as [|a s IH]; [reflexivity|].
  cbv [String.append]. fold String.append. simpl. f_equal. exact IH.
Qed.

Lemma append_cancel_r (u : string) : forall s t : string,
  s +:+ u = t +:+ u -> s = t.
Proof.
  induction s as [|a s IH]; intros [|b t] H.
  - reflexivity.
  - apply (f_equal String.length) in H. rewrite !append_length in H.
    cbn [String.length] in H. lia.
  - apply (f_equal String.length) in H. rewrite !append_length in H.
    cbn [String.length] in H. lia.
  - cbv [String.append] in H. fold String.append in H.
    injection H as -> H. f_equal. apply IH. exact H.
Qed.

(** X16: the record of an empty frame determines the frame: two frame
    indices with the same line are equal, so the lines written for
    different frames of a run are different. *)
Theorem emptyFrameLine_inj i j :
  emptyFrameLine i = emptyFrameLine j -> i = j.
Proof.
  unfold emptyFrameLine, dq. intros H.
  cbv [String.append] in H. fold String.append in H.
  injection H as H. apply append_cancel_r in H.
  apply (inj pretty) in H. exact H.
Qed.

Lemma emptyFrameLine_inj_witness :
  emptyFrameLine 12 = emptyFrameLine (3 * 4) /\ 12 = 3 * 4.
Proof.
  split; [reflexivity|].
  apply (emptyFrameLine_inj 12 (3 * 4)). reflexivity.
Defined.

(** X17: [video.release()] is reached on exactly the runs that return 0:
    a run that stops for a help switch, for missing arguments, for an
    exception of [std::stof] or for media that do not open never calls
    it, and a run that returns 0 calls it as its last action. *)
Theorem main_release stof openVideo argv :
  (forall path video,
     openVideo path = Some video -> Z.of_nat (length video) <= INT_MAX) ->
  (In Release (fst (main stof openVideo argv))
   <-> snd (main stof openVideo argv) = Return 0)
  /\ (snd (main stof openVideo argv) = Return 0 ->
      last (fst (main stof openVideo argv)) = Some Release).
Proof.
  intros Hshort.
  destruct (parseArgs_cases stof argv)
    as [[Hhelp H]|[(Hhelp & Hlen & H)
                  |(Hhelp & Hlen & a1 & a2 & a3 & H1 & H2 & H3 & H)]].
  - unfold main, mainProg. rewrite H. simpl.
    split; [split; [intros [E|[]]; discriminate|discriminate]|discriminate].
  - unfold main, mainProg. rewrite H. simpl.
    split; [split; [intros [E|[]]; discriminate|discriminate]|discriminate].
  - destruct (stof a3) as [size|e] eqn:Hsize.
    + destruct (openVideo a1) as [video|] eqn:Hopen.
      * rewrite (main_run stof openVideo argv a1 a2 a3 size video)
          by eauto.
        cbn [fst snd]. split.
        -- split; [reflexivity|]. intros _. right. apply in_or_app. right.
           left. reflexivity.
        -- intros _.
           change (Open a1 true :: ?l) with ([Open a1 true] ++ l)%list.
           rewrite app_assoc. apply last_snoc.
      * rewrite (main_unopenable_run stof openVideo argv a1 a2 a3 size)
          by assumption.
        cbn [fst snd].
        split; [split; [intros [E|[E|[]]]; discriminate|discriminate]
               |discriminate].
    + unfold main, mainProg. rewrite H. simpl.
      split; [split; [intros []|discriminate]|discriminate].
Qed.

Lemma main_release_witness :
  last (fst (main stof_decimal (oneVideo "video.mp4" [blankFrame 640 480])
               ["app"; "video.mp4"; "ARUCO"; "50.0"]))
  = Some Release.
Proof.
  destruct (main_release stof_decimal
              (oneVideo "video.mp4" [blankFrame 640 480])
              ["app"; "video.mp4"; "ARUCO"; "50.0"]) as [_ H].
  - intros path video. unfold oneVideo.
    destruct (String.eqb path "video.mp4"); [|discriminate].
    intros [= <-]. vm_compute. discriminate.
  - apply H. reflexivity.
Defined.

(** ** The record of a frame without markers *)

Lemma emptyFrameLine_eq_iff i j :
  emptyFrameLine i = emptyFrameLine j <-> i = j.
Proof.
  split; [|intros ->; reflexivity].
  unfold emptyFrameLine, dq. intros H.
  cbv [String.append] in H. fold String.append in H.
  injection H as H. apply append_cancel_r in H.
  apply (inj pretty) in H. exact H.
Qed.

(** The lines of the frames processed from the counter [i] on do not
    include the record of an earlier index. *)
Lemma processed_stdout_later cfg dict o m d video : forall i k,
  k < i ->
  ~ In (emptyFrameLine k)
      (flat_map (fun kf => stdout (frameEvents cfg dict o m d (fst kf) (snd kf)))
         (processedFrames cfg i video)).
Proof.
  intros i k Hk Hin. apply in_flat_map in Hin.
  destruct Hin as ([k' f] & Hkf & Hin). cbn [fst snd] in Hin.
  rewrite stdout_frameEvents in Hin.
  apply processedFrames_index in Hkf. destruct Hkf as [Hk' _].
  destruct (noMarkers dict f && printEmptyFrames cfg); [|destruct Hin].
  destruct Hin as [Heq|[]]. apply emptyFrameLine_eq_iff in Heq. lia.
Qed.

(** Under the flag, the record of a processed frame without markers
    stands once among the lines of the processed frames. *)
Lemma processed_stdout_once cfg dict o m d video : forall i k frame,
  In (k, frame) (processedFrames cfg i video) ->
  noMarkers dict frame = true ->
  printEmptyFrames cfg = true ->
  count_occ string_dec
    (flat_map (fun kf => stdout (frameEvents cfg dict o m d (fst kf) (snd kf)))
       (processedFrames cfg i video))
    (emptyFrameLine k) = 1%nat.
Proof.
  induction video as [|f rest IH]; intros i k frame Hin Hn Hflag;
    cbn [processedFrames] in *; [destruct Hin|].
  destruct ((to_uint i <? endFrame cfg) || (endFrame cfg =? 0));
    [|destruct Hin].
  cbn [flat_map fst snd]. rewrite count_occ_app, stdout_frameEvents.
  destruct Hin as [[= -> ->]|Hin].
  - rewrite Hn, Hflag. cbn [andb count_occ].
    destruct (string_dec (emptyFrameLine k) (emptyFrameLine k)) as [_|Hne];
      [|destruct Hne; reflexivity].
    rewrite (proj1 (count_occ_not_In string_dec _ _)); [reflexivity|].
    apply processed_stdout_later. lia.
  - rewrite (IH (i + 1) k frame Hin Hn Hflag).
    apply processedFrames_index in Hin as [Hk _].
    destruct (noMarkers dict f && printEmptyFrames cfg); [|reflexivity].
    cbn [count_occ].
    destruct (string_dec (emptyFrameLine i) (emptyFrameLine k)) as [Heq|_];
      [|reflexivity].
    apply emptyFrameLine_eq_iff in Heq. lia.
Qed.

(** C3: for a frame that the loop processes under the index [k] and in
    which no marker is detected, the line
    [{"frame_id":k, detections:[]}], a record whose detection list is
    empty, is on the standard output of the loop if and only if the
    print-empty-frames flag is set; when the flag is set it stands there
    exactly once, and it is all that the processing of that frame writes;
    when the flag is not set that frame writes nothing. *)
Theorem C3_empty_frame_record cfg dict o m d i video k frame :
  i + Z.of_nat (length video) <= INT_MAX ->
  In (k, frame) (processedFrames cfg i video) ->
  noMarkers dict frame = true ->
  let record :=
    "{" +:+ dq +:+ "frame_id" +:+ dq +:+ ":" +:+ pretty k
    +:+ ", detections:[]}" in
  let out := stdout (fst (frameLoop cfg dict o m d i video)) in
  (In record out <-> printEmptyFrames cfg = true)
  /\ (printEmptyFrames cfg = true -> count_occ string_dec out record = 1%nat)
  /\ stdout (fst (processFrame cfg dict o m d k frame))
     = (if printEmptyFrames cfg then [record] else []).
Proof.
  intros Hi Hk Hn record out.
  change record with (emptyFrameLine k).
  assert (Hout : out = flat_map
                         (fun kf => stdout (frameEvents cfg dict o m d
                                              (fst kf) (snd kf)))
                         (processedFrames cfg i video)).
  { unfold out. apply (frameLoop_stdout cfg dict o m d video i Hi). }
  split; [|split].
  - rewrite Hout, in_flat_map. split.
    + intros ([k' f'] & _ & Hin). cbn [fst snd] in Hin.
      rewrite stdout_frameEvents in Hin.
      destruct (printEmptyFrames cfg); [reflexivity|].
      rewrite andb_false_r in Hin. destruct Hin.
    + intros Hflag. exists (k, frame). split; [exact Hk|]. cbn [fst snd].
      rewrite stdout_frameEvents, Hn, Hflag. left. reflexivity.
  - intros Hflag. rewrite Hout.
    apply (processed_stdout_once cfg dict o m d video i k frame); assumption.
  - fold (frameEvents cfg dict o m d k frame).
    rewrite stdout_frameEvents, Hn. reflexivity.
Qed.

Lemma C3_empty_frame_record_witness :
  let cfg := configuration "video.mp4" "ARUCO" 50%Q 0 0 true in
  let video := [markerFrame 640 480 7 squareCorners; blankFrame 640 480] in
  let record :=
    "{" +:+ dq +:+ "frame_id" +:+ dq +:+ ":" +:+ "1" +:+ ", detections:[]}" in
  let out := stdout (fst (frameLoop cfg (getDictFromName "ARUCO") ∅ ∅ ∅ 0
                            video)) in
  noMarkers (getDictFromName "ARUCO") (blankFrame 640 480) = true
  /\ (In record out <-> true = true)
  /\ count_occ string_dec out record = 1%nat.
Proof.
  intros cfg video record out. split; [reflexivity|].
  destruct (C3_empty_frame_record cfg (getDictFromName "ARUCO") ∅ ∅ ∅ 0 video
              1 (blankFrame 640 480)) as (Hiff & Hcount & _).
  - vm_compute. discriminate.
  - right. left. reflexivity.
  - reflexivity.
  - split; [exact Hiff|]. apply Hcount. reflexivity.
Defined.
